(** * mysqldb: the migration runner, its statement splitter, the connection
      facade and the open/close life cycle of [db.go], embedded in Rocq.

    Go strings are byte sequences; they are modelled by [string] (a
    sequence of 8-bit [ascii]).  Go's [int] indices are modelled by [Z],
    with [-1] for "not found" exactly as [strings.Index] returns it. *)

From Stdlib Require Import ZArith List Bool Ascii String Lia Permutation Sorted.
Import ListNotations.

Open Scope string_scope.
Open Scope Z_scope.

#[global] Set Warnings "-register-all".

(** ** The part of Go's [strings] package that [db.go] calls *)

Module Strings.

(** [len(s)] *)
Definition len (s : string) : Z := Z.of_nat (String.length s).

(** The first [n] bytes of [s] and what is left after them. *)
Definition take (n : nat) (s : string) : string := substring 0 n s.

Fixpoint drop (n : nat) (s : string) : string :=
  match n, s with
  | O, _ => s
  | S _, EmptyString => EmptyString
  | S n', String _ s' => drop n' s'
  end.

(** [s[:j]] and [s[i:]]; every slice taken in [db.go] is within range. *)
Definition sliceTo (s : string) (j : Z) : string := take (Z.to_nat j) s.
Definition sliceFrom (s : string) (i : Z) : string := drop (Z.to_nat i) s.

(** [strings.Index(s, substr)]: offset of the first occurrence, or [-1]. *)
Definition Index (s substr : string) : Z :=
  match index 0 substr s with
  | Some i => Z.of_nat i
  | None => -1
  end.

(** The white space of [strings.TrimSpace] on ASCII text: tab, line feed,
    vertical tab, form feed, carriage return, space.  The Unicode white
    space beyond ASCII that Go trims as well (U+0085, U+00A0, ...) is not
    modelled: scripts are taken as ASCII at the places where they are
    trimmed. *)
Definition isSpace (c : ascii) : bool :=
  match nat_of_ascii c with
  | 9%nat | 10%nat | 11%nat | 12%nat | 13%nat | 32%nat => true
  | _ => false
  end.

Fixpoint TrimLeft (s : string) : string :=
  match s with
  | EmptyString => EmptyString
  | String c s' => if isSpace c then TrimLeft s' else s
  end.

Fixpoint TrimRight (s : string) : string :=
  match s with
  | EmptyString => EmptyString
  | String c s' =>
      match TrimRight s' with
      | EmptyString => if isSpace c then EmptyString else String c EmptyString
      | t => String c t
      end
  end.

(** [strings.TrimSpace(s)] *)
Definition TrimSpace (s : string) : string := TrimRight (TrimLeft s).

(** [strings.Replace(s, old, new, n)] for a non-empty [old]: the first [n]
    non-overlapping occurrences are replaced, all of them when [n < 0]. *)
Fixpoint Replace_from (fuel : nat) (s old new : string) (n : Z) : string :=
  match fuel with
  | O => s
  | S fuel' =>
      if n =? 0 then s
      else match index 0 old s with
           | None => s
           | Some j =>
               take j s ++ new ++
               Replace_from fuel' (drop (j + String.length old) s) old new (n - 1)
           end
  end.

Definition Replace (s old new : string) (n : Z) : string :=
  Replace_from (S (String.length s)) s old new n.

(** [strings.ToLower] on ASCII letters; other bytes stay.  For the one
    comparison [db.go] makes, with [".sql"], this is what Go computes: no
    letter outside ASCII has [s], [q] or [l] as its lower case. *)
Definition lower (c : ascii) : ascii :=
  let k := nat_of_ascii c in
  if ((65 <=? k) && (k <=? 90))%nat then ascii_of_nat (k + 32) else c.

Fixpoint ToLower (s : string) : string :=
  match s with
  | EmptyString => EmptyString
  | String c s' => String (lower c) (ToLower s')
  end.

End Strings.
Import Strings.

(** The line feed, Go's ["\n"]. *)
Definition LF : string := String (ascii_of_nat 10) EmptyString.

(** ** The statement loop of [runMigrations] (db.go, lines 296-342) *)

(** What one turn of [for sql != ""] does, apart from talking to the
    database: the [return] of line 302, a statement to execute followed by
    the new remainder (or the [break] of line 319), a new delimiter followed
    by the new remainder (or the [break] of line 339), or the [break] of
    line 329. *)
Inductive turn : Type :=
| UnexpectedEnd
| Statement (stmt : string) (rest : option string)
| Delimiter (delim : string) (rest : option string)
| NoLineEnd.

Definition loopBody (sql delim : string) : turn :=
  let nextDelimIndex := Index sql delim in
  let nextDelimChangeIndex := Index sql "delimiter " in
  if (nextDelimIndex =? -1) && (nextDelimChangeIndex =? -1) then
    UnexpectedEnd
  else if (nextDelimChangeIndex =? -1)
          || (negb (nextDelimIndex =? -1) && (nextDelimIndex <? nextDelimChangeIndex)) then
    let stmt :=
      (* only include the delimiter if it's a semi-colon *)
      if (delim =? ";")%string then sliceTo sql (nextDelimIndex + 1)
      else sliceTo sql nextDelimIndex in
    if len sql <=? nextDelimIndex then Statement stmt None
    else Statement stmt (Some (TrimSpace (sliceFrom sql (nextDelimIndex + 1))))
  else
    let delimLineEndIndex := Index sql LF in
    if delimLineEndIndex =? -1 then NoLineEnd
    else
      let delim := Replace (sliceTo sql (delimLineEndIndex + 1)) "delimiter " "" 1 in
      let delim := Replace delim LF "" (-1) in
      let delim := TrimSpace delim in
      if len sql <=? delimLineEndIndex then Delimiter delim None
      else Delimiter delim (Some (TrimSpace (sliceFrom sql (delimLineEndIndex + 1)))).

(** ** The splitter on its own

    The statements the loop hands to the database, in order, and how the
    loop ends when every one of them executes successfully. *)

Inductive ending : Type :=
| Finished          (* the loop ran to its end; the migration gets recorded *)
| Malformed         (* "unexpected end of migration" *)
| Exhausted.        (* the recursion bound of the model was hit *)

Fixpoint splitFrom (fuel : nat) (sql delim : string) : list string * ending :=
  if (sql =? "")%string then ([], Finished)
  else
    match fuel with
    | O => ([], Exhausted)
    | S fuel' =>
        match loopBody sql delim with
        | UnexpectedEnd => ([], Malformed)
        | Statement stmt None => ([stmt], Finished)
        | Statement stmt (Some sql') =>
            let (stmts, e) := splitFrom fuel' sql' delim in (stmt :: stmts, e)
        | Delimiter _ None => ([], Finished)
        | Delimiter delim' (Some sql') => splitFrom fuel' sql' delim'
        | NoLineEnd => ([], Finished)
        end
    end.

(** [sql := strings.TrimSpace(string(s)); delim := ";"] (lines 294-296) *)
Definition split (script : string) : list string * ending :=
  let sql := TrimSpace script in
  splitFrom (String.length sql) sql ";".

(** ** Values, errors and the world outside the program *)

(** The Go values that travel through [...interface{}] parameters and
    through [Scan]. *)
Inductive value : Type :=
| VNil
| VBool (b : bool)
| VInt (z : Z)
| VString (s : string)
| VBytes (b : string)              (* []uint8 *)
| VSlice (vs : list value).        (* []interface{} *)

(** Go [error] values: one handed back by the driver, the DSN parser or the
    file system, one made by [fmt.Errorf] without a cause, and one made by
    [fmt.Errorf(context + ": %w", cause)]. *)
Inductive error : Type :=
| External (msg : string)
| Errorf (msg : string)
| Wrap (context : string) (cause : error).

(** The handles [db.go] holds: [d.db] of a [DB], the local [db] of the two
    administrative helpers, and [tx.tx] of a [Tx]. *)
Inductive handle : Type := MainDB | AdminDB | MainTx.

(** Calls that leave the program. *)
Inductive call : Type :=
| Open (h : handle) (dsn : string)
| Ping (h : handle)
| Close (h : handle)
| Exec (h : handle) (query : string) (args : list value)
| Query (h : handle) (query : string) (args : list value)
| QueryRow (h : handle) (query : string) (args : list value)
| ReadDir (dir : string)
| ReadFile (name : string).

(** A call together with the error it came back with, if any. *)
Definition event : Type := (call * option error)%type.

(** [fs.DirEntry], and a read-only file tree ([fs.FS]). *)
Record DirEntry : Type := { Name : string; IsDir : bool }.

Record FS : Type := {
  fsReadDir : string -> error + list DirEntry;
  fsReadFile : string -> error + string
}.

(** [mysql.Config]; [db.go] reads and writes [DBName] only. *)
Record Config : Type := { DBName : string; params : string }.

Definition withDBName (cfg : Config) (n : string) : Config :=
  {| DBName := n; params := params cfg |}.

(** What the model does not fix: which calls fail, what a query the model
    knows nothing about answers, and the library functions
    [mysql.ParseDSN], [Config.FormatDSN] and [path.Join]. *)
Record Env : Type := {
  fault : list string -> list event -> call -> option error;
  reply : list event -> call -> value;
  ParseDSN : string -> error + Config;
  FormatDSN : Config -> string;
  pathJoin : string -> string -> string
}.

(** The state outside: the [Name] column of [__Migrations], oldest row
    first, and every call made so far with its outcome, oldest first. *)
Record World : Type := { ledger : list string; trace : list event }.

(** How a Go function ends. [OutOfFuel] belongs to the model only: the
    statement loop recurses on a bound, and [statements_total] (below) shows
    the bound is never hit. *)
Inductive result (A : Type) : Type :=
| Ok (a : A)
| Fail (e : error)
| Panic
| OutOfFuel.
Arguments Ok {A} a.
Arguments Fail {A} e.
Arguments Panic {A}.
Arguments OutOfFuel {A}.

Definition M (A : Type) : Type := World -> result A * World.

Definition ret {A : Type} (a : A) : M A := fun w => (Ok a, w).
Definition fail {A : Type} (e : error) : M A := fun w => (Fail e, w).
Definition panic {A : Type} : M A := fun w => (Panic, w).

Definition bind {A B : Type} (m : M A) (k : A -> M B) : M B :=
  fun w =>
    match m w with
    | (Ok a, w') => k a w'
    | (Fail e, w') => (Fail e, w')
    | (Panic, w') => (Panic, w')
    | (OutOfFuel, w') => (OutOfFuel, w')
    end.

(** [x, err := m; if err != nil { handler }; k x] *)
Definition catch {A B : Type} (m : M A) (handler : error -> M B) (k : A -> M B) : M B :=
  fun w =>
    match m w with
    | (Ok a, w') => k a w'
    | (Fail e, w') => handler e w'
    | (Panic, w') => (Panic, w')
    | (OutOfFuel, w') => (OutOfFuel, w')
    end.

(** [if err != nil { return fmt.Errorf(context + ": %w", err) }] *)
Definition wrap {A : Type} (context : string) (m : M A) : M A :=
  catch m (fun e => fail (Wrap context e)) ret.

(** [defer cleanup] around [body]: the clean-up runs when [body] has
    returned or panicked, and what it returns is dropped. *)
Definition defer {A B : Type} (cleanup : M B) (body : M A) : M A :=
  fun w =>
    match body w with
    | (OutOfFuel, w') => (OutOfFuel, w')
    | (r, w') => (r, snd (cleanup w'))
    end.

Declare Scope go_scope.
Delimit Scope go_scope with go.
Notation "x <- m ;; k" := (bind m (fun x => k))
  (at level 61, m at next level, right associativity) : go_scope.
Notation "m ;;; k" := (bind m (fun _ => k))
  (at level 61, right associativity) : go_scope.
Open Scope go_scope.

(** The two statements that touch the ledger table. *)
Definition selectMigration : string :=
  "SELECT COALESCE((SELECT b'1' FROM __Migrations WHERE `Name` = ?), b'0');".
Definition insertMigration : string :=
  "INSERT INTO __Migrations(`Name`) VALUES (?);".
Definition createMigrations : string := "
CREATE TABLE IF NOT EXISTS __Migrations (
	ID INT NOT NULL AUTO_INCREMENT,
	`Name` VARCHAR(255) NOT NULL,
	RunAt TIMESTAMP NOT NULL DEFAULT CURRENT_TIMESTAMP,
	PRIMARY KEY(ID)
);".

(** The bit values [b'0'] and [b'1'] as the driver hands them over. *)
Definition bit0 : string := String Ascii.zero EmptyString.
Definition bit1 : string := String Ascii.one EmptyString.

Definition hasName (n : string) (l : list string) : bool :=
  existsb (String.eqb n) l.

(** What a successful call does to the ledger table: the insert of
    [runMigrations] adds a row; every other statement is taken to leave
    [__Migrations] alone. *)
Definition effect (c : call) (l : list string) : list string :=
  match c with
  | Exec MainDB q [VString n] =>
      if (q =? insertMigration)%string then l ++ [n] else l
  | _ => l
  end.

(** The first column of the first row a query answers with. *)
Definition answer (env : Env) (w : World) (c : call) : value :=
  match c with
  | QueryRow MainDB q [VString n] =>
      if (q =? selectMigration)%string
      then VBytes (if hasName n (ledger w) then bit1 else bit0)
      else reply env (trace w) c
  | _ => reply env (trace w) c
  end.

(** ** Pure helpers of the runner *)

(** [path.Ext]: the suffix from the last dot of the last slash-separated
    element, empty when that element has no dot. *)
Fixpoint Ext_from (i : nat) (path : string) : string :=
  match i with
  | O => EmptyString
  | S i' =>
      match get i' path with
      | Some c =>
          if (c =? "/")%char then EmptyString
          else if (c =? ".")%char then drop i' path
          else Ext_from i' path
      | None => EmptyString
      end
  end.

Definition Ext (path : string) : string := Ext_from (String.length path) path.

(** [sort.Strings]: ascending byte-wise order. *)
Fixpoint insert (x : string) (l : list string) : list string :=
  match l with
  | [] => [x]
  | y :: l' => if String.leb x y then x :: l else y :: insert x l'
  end.

Definition sortStrings (l : list string) : list string := fold_right insert [] l.

(** Lines 267-276: the names kept from a directory listing, sorted. *)
Definition skipped (entry : DirEntry) : bool :=
  IsDir entry || negb (ToLower (Ext (Name entry)) =? ".sql")%string.

Definition collect (entries : list DirEntry) : list string :=
  fold_left (fun (migrations : list string) entry =>
               if skipped entry then migrations
               else (migrations ++ [Name entry])%list)
            entries [].

Definition migrationNames (entries : list DirEntry) : list string :=
  sortStrings (collect entries).

(** [Bool.Scan]: [b] is the value the receiver holds before the call.  The
    type name that [%T] prints is left out of the message. *)
Definition Bool_Scan (b : bool) (src : value) : error + bool :=
  match src with
  | VBytes tmp =>
      if (tmp =? bit0)%string then inr false
      else if (tmp =? bit1)%string then inr true
      else inr b
  | _ => inl (Errorf "unexpected type for mysqlBool: %T")
  end.

(** [Bool.Value] *)
Definition Bool_Value (b : bool) : value :=
  if b then VBytes bit1 else VBytes bit0.

(** ** [DB], [Tx] and the options *)

Record DB : Type := {
  db : handle;
  name : string;
  dsn : string;
  autoCreate : bool;
  dropExisting : bool;
  migrationsDir : string;
  migrationsFS : option FS;
  dropOnClose : bool
}.

Record Tx : Type := { tx : handle }.

Definition Option : Type := DB -> DB.

Definition AutoCreateDB : Option := fun d =>
  {| db := db d; name := name d; dsn := dsn d; autoCreate := true;
     dropExisting := dropExisting d; migrationsDir := migrationsDir d;
     migrationsFS := migrationsFS d; dropOnClose := dropOnClose d |}.

Definition DropExistingDB : Option := fun d =>
  {| db := db d; name := name d; dsn := dsn d; autoCreate := autoCreate d;
     dropExisting := true; migrationsDir := migrationsDir d;
     migrationsFS := migrationsFS d; dropOnClose := dropOnClose d |}.

Definition WithMigrations (fsys : option FS) (dir : string) : Option := fun d =>
  {| db := db d; name := name d; dsn := dsn d; autoCreate := autoCreate d;
     dropExisting := dropExisting d; migrationsDir := dir;
     migrationsFS := fsys; dropOnClose := dropOnClose d |}.

Definition DropDBOnClose : Option := fun d =>
  {| db := db d; name := name d; dsn := dsn d; autoCreate := autoCreate d;
     dropExisting := dropExisting d; migrationsDir := migrationsDir d;
     migrationsFS := migrationsFS d; dropOnClose := true |}.

(** Lines 148-151: the fresh [DB] with every option applied.  The handle
    field is read only after line 169 has set it, so the nil it holds until
    then is not modelled. *)
Definition configure (cfg : Config) (dsn : string) (options : list Option) : DB :=
  let d := {| db := MainDB; name := DBName cfg; dsn := dsn;
              autoCreate := false; dropExisting := false;
              migrationsDir := EmptyString; migrationsFS := None;
              dropOnClose := false |} in
  fold_left (fun d (o : Option) => o d) options d.

(** [d.db = h] (line 169) *)
Definition setHandle (d : DB) (h : handle) : DB :=
  {| db := h; name := name d; dsn := dsn d; autoCreate := autoCreate d;
     dropExisting := dropExisting d; migrationsDir := migrationsDir d;
     migrationsFS := migrationsFS d; dropOnClose := dropOnClose d |}.

Section Program.

Variable env : Env.

(** Make the call [c]: it is logged with its outcome, and takes effect
    when it succeeds. *)
Definition invoke (c : call) : M unit :=
  fun w =>
    let err := fault env (ledger w) (trace w) c in
    let l := match err with None => effect c (ledger w) | Some _ => ledger w end in
    (match err with None => Ok tt | Some e => Fail e end,
     {| ledger := l; trace := trace w ++ [(c, err)] |}).

(** [sql.Open], and [Ping], [Close], [Exec] of [sql.DB] and [sql.Tx]. *)
Definition sqlOpen (h : handle) (dsn : string) : M handle :=
  invoke (Open h dsn) ;;; ret h.
Definition sqlPing (h : handle) : M unit := invoke (Ping h).
Definition sqlClose (h : handle) : M unit := invoke (Close h).
Definition sqlExec (h : handle) (query : string) (args : list value) : M unit :=
  invoke (Exec h query args).

(** [Query] hands back a cursor or an error. The cursor is opaque. *)
Definition sqlQuery (h : handle) (query : string) (args : list value) : M unit :=
  invoke (Query h query args).

(** [QueryRow] never fails by itself: the [sql.Row] it returns holds the
    error, or the value [Scan] will see. *)
Definition Row : Type := (error + value)%type.

Definition sqlQueryRow (h : handle) (query : string) (args : list value) : M Row :=
  fun w =>
    let c := QueryRow h query args in
    let err := fault env (ledger w) (trace w) c in
    (Ok (match err with Some e => inl e | None => inr (answer env w c) end),
     {| ledger := ledger w; trace := trace w ++ [(c, err)] |}).

(** [fs.ReadDir] and [fs.ReadFile]; a nil [fs.FS] panics. *)
Definition ReadDirFS (fsys : option FS) (dir : string) : M (list DirEntry) :=
  match fsys with
  | None => panic
  | Some f =>
      fun w =>
        match fsReadDir f dir with
        | inl e => (Fail e, {| ledger := ledger w; trace := trace w ++ [(ReadDir dir, Some e)] |})
        | inr es => (Ok es, {| ledger := ledger w; trace := trace w ++ [(ReadDir dir, None)] |})
        end
  end.

Definition ReadFileFS (fsys : option FS) (p : string) : M string :=
  match fsys with
  | None => panic
  | Some f =>
      fun w =>
        match fsReadFile f p with
        | inl e => (Fail e, {| ledger := ledger w; trace := trace w ++ [(ReadFile p, Some e)] |})
        | inr s => (Ok s, {| ledger := ledger w; trace := trace w ++ [(ReadFile p, None)] |})
        end
  end.

(** [row.Scan(&exists)] with [exists] a [Bool] holding [b].  The context
    that [database/sql] puts around an error of [Bool.Scan] is left out. *)
Definition scanBool (row : Row) (b : bool) : M bool :=
  match row with
  | inl e => fail e
  | inr src =>
      match Bool_Scan b src with
      | inl e => fail e
      | inr b' => ret b'
      end
  end.

(** *** The connection facade (lines 39-49 and 64-74) *)

Definition DB_Exec (d : DB) (query : string) (args : list value) : M unit :=
  sqlExec (db d) query [VSlice args].

Definition DB_Query (d : DB) (query : string) (args : list value) : M unit :=
  sqlQuery (db d) query [VSlice args].

Definition DB_QueryRow (d : DB) (query : string) (args : list value) : M Row :=
  sqlQueryRow (db d) query [VSlice args].

Definition Tx_Exec (t : Tx) (query : string) (args : list value) : M unit :=
  sqlExec (tx t) query [VSlice args].

Definition Tx_Query (t : Tx) (query : string) (args : list value) : M unit :=
  sqlQuery (tx t) query [VSlice args].

Definition Tx_QueryRow (t : Tx) (query : string) (args : list value) : M Row :=
  sqlQueryRow (tx t) query [VSlice args].

(** *** The administrative helpers (lines 211-247) *)

Definition createDatabaseIfNotExist (dsn dbName : string) : M unit :=
  h <- wrap "opening database" (sqlOpen AdminDB dsn) ;;
  defer (sqlClose h)
    (wrap "pinging database" (sqlPing h) ;;;
     wrap "creating database"
       (sqlExec h ("CREATE DATABASE IF NOT EXISTS " ++ dbName ++ ";") []) ;;;
     ret tt).

Definition dropExistingDatabaseIfExist (dsn dbName : string) : M unit :=
  h <- wrap "opening database" (sqlOpen AdminDB dsn) ;;
  defer (sqlClose h)
    (wrap "pinging database" (sqlPing h) ;;;
     wrap "dropping database"
       (sqlExec h ("DROP DATABASE IF EXISTS " ++ dbName ++ ";") []) ;;;
     ret tt).

(** *** [runMigrations] (lines 249-351) *)

(** The loop [for sql != ""] of lines 297-342. *)
Fixpoint statements (d : DB) (fuel : nat) (migration sql delim : string) : M unit :=
  if (sql =? "")%string then ret tt
  else
    match fuel with
    | O => fun w => (OutOfFuel, w)
    | S fuel' =>
        match loopBody sql delim with
        | UnexpectedEnd =>
            fail (Errorf ("unexpected end of migration: " ++ migration))
        | Statement stmt rest =>
            wrap "executing migration statement" (sqlExec (db d) stmt []) ;;;
            match rest with
            | None => ret tt
            | Some sql' => statements d fuel' migration sql' delim
            end
        | Delimiter delim' rest =>
            match rest with
            | None => ret tt
            | Some sql' => statements d fuel' migration sql' delim'
            end
        | NoLineEnd => ret tt
        end
    end.

(** One turn of [for _, migration := range migrations] (lines 279-347);
    [continue] is the plain return. *)
Definition applyMigration (d : DB) (migration : string) : M unit :=
  row <- sqlQueryRow (db d) selectMigration [VString migration] ;;
  exists_ <- wrap "querying for migration" (scanBool row false) ;;
  if (exists_ : bool) then ret tt
  else
    let p := pathJoin env (migrationsDir d) migration in
    s <- wrap ("reading file " ++ p) (ReadFileFS (migrationsFS d) p) ;;
    let sql := TrimSpace s in
    statements d (String.length sql) migration sql ";" ;;;
    wrap ("inserting migration record '" ++ migration ++ "'")
      (sqlExec (db d) insertMigration [VString migration]).

Fixpoint migrate (d : DB) (migrations : list string) : M unit :=
  match migrations with
  | [] => ret tt
  | migration :: later => applyMigration d migration ;;; migrate d later
  end.

Definition runMigrations (d : DB) : M unit :=
  wrap "creating migrations table" (sqlExec (db d) createMigrations []) ;;;
  entries <- wrap "reading migrations directory"
               (ReadDirFS (migrationsFS d) (migrationsDir d)) ;;
  migrate d (migrationNames entries).

(** *** [NewDB] (lines 142-187) and [Close] (lines 192-209) *)

(** A call whose result the code throws away, as in [d.db.Close()]. *)
Definition ignore {A : Type} (m : M A) : M unit :=
  catch m (fun _ => ret tt) (fun _ => ret tt).

(** [NewDB] returns a pair, the handle and the error; each [return] of the source
    is written out.  [cfg.DBName] is emptied before each administrative
    call and restored after it, so both calls format the same [cfg]. *)
Definition NewDB (dsn : string) (options : list Option)
  : M (option DB * option error) :=
  match ParseDSN env dsn with
  | inl err => ret (None, Some (Wrap "parsing dsn" err))
  | inr cfg =>
      let d := configure cfg dsn options in
      catch (if dropExisting d
             then dropExistingDatabaseIfExist (FormatDSN env (withDBName cfg "")) (name d)
             else ret tt)
        (fun err => ret (None, Some (Wrap "dropping existing database" err)))
        (fun _ =>
      catch (if autoCreate d
             then createDatabaseIfNotExist (FormatDSN env (withDBName cfg "")) (name d)
             else ret tt)
        (fun err => ret (None, Some (Wrap "auto-creating database" err)))
        (fun _ =>
      catch (sqlOpen MainDB dsn)
        (fun err => ret (None, Some (Wrap "opening database" err)))
        (fun h =>
      let d := setHandle d h in
      catch (sqlPing (db d))
        (fun err => ignore (sqlClose (db d)) ;;; ret (None, Some err))
        (fun _ =>
      catch (if negb (migrationsDir d =? "")%string then runMigrations d else ret tt)
        (fun err => ignore (sqlClose (db d)) ;;;
                    ret (None, Some (Wrap "running migrations" err)))
        (fun _ => ret (Some d, None))))))
  end.

Definition DB_Close (d : DB) : M unit :=
  wrap "closing database" (sqlClose (db d)) ;;;
  if negb (dropOnClose d) then ret tt
  else
    match ParseDSN env (dsn d) with
    | inl err => fail (Wrap "parsing dsn" err)
    | inr cfg =>
        dropExistingDatabaseIfExist (FormatDSN env (withDBName cfg "")) (name d)
    end.

End Program.

(** ** The states the statement loop goes through *)



(** The script of the delimiter example, around any body. *)
Definition script3 (body : string) : string :=
  "delimiter $$" ++ LF ++ body ++ "$$" ++ LF ++ "delimiter ;" ++ LF ++ "SELECT 1;".

(** ** Definitions the statements below use *)

(** The splitter started on [sql] with [delim], with a bound that covers. *)
Definition splitAll (sql delim : string) : list string * ending :=
  splitFrom (String.length sql) sql delim.




(** Byte-wise order on strings. *)
Definition le (a b : string) : Prop := String.leb a b = true.

(** The event of a statement that executed. *)
Definition executed (stmt : string) : event := (Exec MainDB stmt [], None).

(** The world after one more call. *)
Definition logged (w : World) (l : list string) (t : list event) : World :=
  {| ledger := l; trace := (trace w ++ t)%list |}.

(** What a trace says: the names looked up in the ledger, the files read,
    the names recorded, and whether a call executes a statement. *)
Definition lookupOf (ev : event) : list string :=
  match fst ev with
  | QueryRow _ q [VString n] => if (q =? selectMigration)%string then [n] else []
  | _ => []
  end.
Definition readOf (ev : event) : list string :=
  match fst ev with
  | ReadFile p => [p]
  | _ => []
  end.
Definition recordOf (ev : event) : list string :=
  match fst ev with
  | Exec _ q [VString n] => if (q =? insertMigration)%string then [n] else []
  | _ => []
  end.
Definition lookups (t : list event) : list string := flat_map lookupOf t.
Definition reads (t : list event) : list string := flat_map readOf t.
Definition records (t : list event) : list string := flat_map recordOf t.

Definition isExec (c : call) : bool :=
  match c with
  | Exec _ _ _ => true
  | _ => false
  end.
Definition noExec (t : list event) : Prop :=
  Forall (fun ev => isExec (fst ev) = false) t.

(** How the statement loop ends, in terms of the splitter. *)
Inductive statementsEnd (migration sql delim : string) (w : World)
  : result unit -> World -> Prop :=
| ended_finished :
    snd (splitAll sql delim) = Finished ->
    statementsEnd migration sql delim w (Ok tt)
      (logged w (ledger w) (map executed (fst (splitAll sql delim))))
| ended_malformed :
    snd (splitAll sql delim) = Malformed ->
    statementsEnd migration sql delim w
      (Fail (Errorf ("unexpected end of migration: " ++ migration)))
      (logged w (ledger w) (map executed (fst (splitAll sql delim))))
| ended_failed done stmt later e :
    fst (splitAll sql delim) = (done ++ stmt :: later)%list ->
    statementsEnd migration sql delim w
      (Fail (Wrap "executing migration statement" e))
      (logged w (ledger w) (map executed done ++ [(Exec MainDB stmt [], Some e)])).

Section Outcomes.

Variable env : Env.

(** The three calls [applyMigration] makes besides the statements. *)
Definition lookup (migration : string) : call :=
  QueryRow MainDB selectMigration [VString migration].
Definition record (migration : string) : call :=
  Exec MainDB insertMigration [VString migration].

(** How one turn of the migration loop ends. *)
Inductive applied (d : DB) (migration : string) (w : World)
  : result unit -> World -> Prop :=
| applied_lookup_failed e :
    applied d migration w
      (Fail (Wrap "querying for migration" e))
      (logged w (ledger w) [(lookup migration, Some e)])
| applied_skipped :
    hasName migration (ledger w) = true ->
    applied d migration w (Ok tt) (logged w (ledger w) [(lookup migration, None)])
| applied_no_fs :
    hasName migration (ledger w) = false ->
    migrationsFS d = None ->
    applied d migration w Panic (logged w (ledger w) [(lookup migration, None)])
| applied_read_failed f e :
    hasName migration (ledger w) = false ->
    migrationsFS d = Some f ->
    fsReadFile f (pathJoin env (migrationsDir d) migration) = inl e ->
    applied d migration w
      (Fail (Wrap ("reading file " ++ pathJoin env (migrationsDir d) migration) e))
      (logged w (ledger w)
         [(lookup migration, None);
          (ReadFile (pathJoin env (migrationsDir d) migration), Some e)])
| applied_stopped f s e w' :
    hasName migration (ledger w) = false ->
    migrationsFS d = Some f ->
    fsReadFile f (pathJoin env (migrationsDir d) migration) = inr s ->
    statementsEnd migration (TrimSpace s) ";"
      (logged w (ledger w)
         [(lookup migration, None);
          (ReadFile (pathJoin env (migrationsDir d) migration), None)])
      (Fail e) w' ->
    applied d migration w (Fail e) w'
| applied_record_failed f s e :
    hasName migration (ledger w) = false ->
    migrationsFS d = Some f ->
    fsReadFile f (pathJoin env (migrationsDir d) migration) = inr s ->
    snd (split s) = Finished ->
    applied d migration w
      (Fail (Wrap ("inserting migration record '" ++ migration ++ "'") e))
      (logged w (ledger w)
         ([(lookup migration, None);
           (ReadFile (pathJoin env (migrationsDir d) migration), None)]
          ++ map executed (fst (split s))
          ++ [(record migration, Some e)]))
| applied_recorded f s :
    hasName migration (ledger w) = false ->
    migrationsFS d = Some f ->
    fsReadFile f (pathJoin env (migrationsDir d) migration) = inr s ->
    snd (split s) = Finished ->
    applied d migration w (Ok tt)
      (logged w (ledger w ++ [migration])
         ([(lookup migration, None);
           (ReadFile (pathJoin env (migrationsDir d) migration), None)]
          ++ map executed (fst (split s))
          ++ [(record migration, None)])).

End Outcomes.

(** The calls the migration runner makes. *)
Definition migrationWork (c : call) : bool :=
  match c with
  | Exec MainDB _ _ | Query MainDB _ _ | QueryRow MainDB _ _ => true
  | ReadDir _ | ReadFile _ => true
  | _ => false
  end.

Definition onlyWork (t : list event) : Prop :=
  Forall (fun ev => migrationWork (fst ev) = true) t.

(** Calls on the administrative connection. *)
Definition onAdmin (c : call) : bool :=
  match c with
  | Open AdminDB _ | Ping AdminDB | Close AdminDB => true
  | Exec AdminDB _ _ | Query AdminDB _ _ | QueryRow AdminDB _ _ => true
  | _ => false
  end.

Definition adminOnly (t : list event) : Prop :=
  Forall (fun ev => onAdmin (fst ev) = true) t.

(** The options [db.go] offers. *)
Inductive stock : Option -> Prop :=
| stock_AutoCreateDB : stock AutoCreateDB
| stock_DropExistingDB : stock DropExistingDB
| stock_WithMigrations fsys dir : stock (WithMigrations fsys dir)
| stock_DropDBOnClose : stock DropDBOnClose.

(** How deep slices nest in a value. *)
Fixpoint depth (v : value) : nat :=
  match v with
  | VSlice vs => S (list_max (map depth vs))
  | _ => 0%nat
  end.

(** ** A sample setting: a server on which nothing fails, and a migration
    source with two scripts, a text file and a directory *)

Definition sampleEnv : Env :=
  {| fault := fun _ _ _ => None;
     reply := fun _ _ => VNil;
     ParseDSN := fun s => inr {| DBName := "app"; params := s |};
     FormatDSN := fun cfg => "/" ++ DBName cfg;
     pathJoin := fun dir file => dir ++ "/" ++ file |}.

Definition sampleEntries : list DirEntry :=
  [ {| Name := "02_x.sql"; IsDir := false |};
    {| Name := "01_y.SQL"; IsDir := false |};
    {| Name := "notes.txt"; IsDir := false |};
    {| Name := "old.sql"; IsDir := true |} ].

Definition sampleFS : FS :=
  {| fsReadDir := fun _ => inr sampleEntries;
     fsReadFile := fun p =>
       if (p =? "migrations/01_y.SQL")%string
       then inr "CREATE TABLE y (id INT);"
       else inr (script3 "CREATE TRIGGER g BEFORE INSERT ON y FOR EACH ROW SET NEW.id = 1;") |}.

Definition sampleOptions : list Option :=
  [WithMigrations (Some sampleFS) "migrations"; DropDBOnClose].

Definition sampleDB : DB :=
  setHandle (configure {| DBName := "app"; params := "/app" |} "/app" sampleOptions) MainDB.

Definition emptyWorld : World := {| ledger := []; trace := [] |}.

(** ** White space, the pieces of a script, checked slices *)





(** Go's slice expressions [s[:j]] and [s[i:]], which panic out of range. *)
Definition sliceToChecked (s : string) (j : Z) : option string :=
  if (0 <=? j) && (j <=? len s) then Some (sliceTo s j) else None.
Definition sliceFromChecked (s : string) (i : Z) : option string :=
  if (0 <=? i) && (i <=? len s) then Some (sliceFrom s i) else None.

(** The loop body with the slices checked: [None] is the run-time panic of
    a slice out of range. *)
Definition loopBodyChecked (sql delim : string) : option turn :=
  let nextDelimIndex := Index sql delim in
  let nextDelimChangeIndex := Index sql "delimiter " in
  if (nextDelimIndex =? -1) && (nextDelimChangeIndex =? -1) then
    Some UnexpectedEnd
  else if (nextDelimChangeIndex =? -1)
          || (negb (nextDelimIndex =? -1) && (nextDelimIndex <? nextDelimChangeIndex)) then
    match (if (delim =? ";")%string then sliceToChecked sql (nextDelimIndex + 1)
           else sliceToChecked sql nextDelimIndex) with
    | None => None
    | Some stmt =>
        if len sql <=? nextDelimIndex then Some (Statement stmt None)
        else
          match sliceFromChecked sql (nextDelimIndex + 1) with
          | None => None
          | Some rest => Some (Statement stmt (Some (TrimSpace rest)))
          end
    end
  else
    let delimLineEndIndex := Index sql LF in
    if delimLineEndIndex =? -1 then Some NoLineEnd
    else
      match sliceToChecked sql (delimLineEndIndex + 1) with
      | None => None
      | Some line =>
          let delim := Replace line "delimiter " "" 1 in
          let delim := Replace delim LF "" (-1) in
          let delim := TrimSpace delim in
          if len sql <=? delimLineEndIndex then Some (Delimiter delim None)
          else
            match sliceFromChecked sql (delimLineEndIndex + 1) with
            | None => None
            | Some rest => Some (Delimiter delim (Some (TrimSpace rest)))
            end
      end.

(** ** How the helpers and [NewDB] end, and the connections left open *)

(** How an administrative helper ends: [stmt] is the statement it sends,
    [context] what it puts in front of the error of that statement, [c] the
    outcome of the deferred close. *)
Inductive helped (dsn stmt context : string) : result unit -> list event -> Prop :=
| helped_unopened e :
    helped dsn stmt context (Fail (Wrap "opening database" e))
      [(Open AdminDB dsn, Some e)]
| helped_unanswered e c :
    helped dsn stmt context (Fail (Wrap "pinging database" e))
      [(Open AdminDB dsn, None); (Ping AdminDB, Some e); (Close AdminDB, c)]
| helped_refused e c :
    helped dsn stmt context (Fail (Wrap context e))
      [(Open AdminDB dsn, None); (Ping AdminDB, None);
       (Exec AdminDB stmt [], Some e); (Close AdminDB, c)]
| helped_done c :
    helped dsn stmt context (Ok tt)
      [(Open AdminDB dsn, None); (Ping AdminDB, None);
       (Exec AdminDB stmt [], None); (Close AdminDB, c)].

(** A helper that runs only when its option is set. *)
Inductive step (enabled : bool) (dsn stmt context : string)
  : result unit -> list event -> Prop :=
| step_skipped : enabled = false -> step enabled dsn stmt context (Ok tt) []
| step_taken r t :
    enabled = true -> helped dsn stmt context r t ->
    step enabled dsn stmt context r t.

(** Equality of handles. *)
Definition handle_eqb (a b : handle) : bool :=
  match a, b with
  | MainDB, MainDB | AdminDB, AdminDB | MainTx, MainTx => true
  | _, _ => false
  end.

(** One connection on [h] less. *)
Fixpoint release (h : handle) (open : list handle) : list handle :=
  match open with
  | [] => []
  | h' :: open' => if handle_eqb h h' then open' else h' :: release h open'
  end.

(** The connections open after the calls of a trace, given the ones open
    before it: a successful [Open] adds its handle, a [Close] takes it off
    whatever it returns. *)
Fixpoint held (open : list handle) (t : list event) : list handle :=
  match t with
  | [] => open
  | (Open h _, None) :: t' => held (h :: open) t'
  | (Close h, _) :: t' => held (release h open) t'
  | _ :: t' => held open t'
  end.

Section Endings.

Variable env : Env.

(** The ways [NewDB] ends from [sql.Open] on (lines 169-186). *)
Inductive mainEnd (dsn0 : string) (d : DB) (w : World)
  : result (option DB * option error) -> World -> Prop :=
| end_open_failed e :
    mainEnd dsn0 d w
      (Ok (None, Some (Wrap "opening database" e)))
      (logged w (ledger w) [(Open MainDB dsn0, Some e)])
| end_ping_failed e c :
    mainEnd dsn0 d w
      (Ok (None, Some e))
      (logged w (ledger w)
         [(Open MainDB dsn0, None); (Ping MainDB, Some e); (Close MainDB, c)])
| end_plain :
    migrationsDir d = EmptyString ->
    mainEnd dsn0 d w
      (Ok (Some (setHandle d MainDB), None))
      (logged w (ledger w) [(Open MainDB dsn0, None); (Ping MainDB, None)])
| end_migrated w' :
    migrationsDir d <> EmptyString ->
    runMigrations env (setHandle d MainDB)
      (logged w (ledger w) [(Open MainDB dsn0, None); (Ping MainDB, None)])
      = (Ok tt, w') ->
    mainEnd dsn0 d w (Ok (Some (setHandle d MainDB), None)) w'
| end_migration_failed e w' c :
    migrationsDir d <> EmptyString ->
    runMigrations env (setHandle d MainDB)
      (logged w (ledger w) [(Open MainDB dsn0, None); (Ping MainDB, None)])
      = (Fail e, w') ->
    mainEnd dsn0 d w
      (Ok (None, Some (Wrap "running migrations" e)))
      (logged w' (ledger w') [(Close MainDB, c)])
| end_panicked w' :
    migrationsDir d <> EmptyString ->
    runMigrations env (setHandle d MainDB)
      (logged w (ledger w) [(Open MainDB dsn0, None); (Ping MainDB, None)])
      = (Panic, w') ->
    mainEnd dsn0 d w Panic w'.

(** The ways [NewDB] ends once the connection string is parsed. *)
Inductive NewDBEnd (dsn0 : string) (cfg : Config) (d : DB) (w : World)
  : result (option DB * option error) -> World -> Prop :=
| end_drop_failed t1 e :
    step (dropExisting d) (FormatDSN env (withDBName cfg ""))
      ("DROP DATABASE IF EXISTS " ++ name d ++ ";") "dropping database" (Fail e) t1 ->
    NewDBEnd dsn0 cfg d w
      (Ok (None, Some (Wrap "dropping existing database" e)))
      (logged w (ledger w) t1)
| end_create_failed t1 t2 e :
    step (dropExisting d) (FormatDSN env (withDBName cfg ""))
      ("DROP DATABASE IF EXISTS " ++ name d ++ ";") "dropping database" (Ok tt) t1 ->
    step (autoCreate d) (FormatDSN env (withDBName cfg ""))
      ("CREATE DATABASE IF NOT EXISTS " ++ name d ++ ";") "creating database" (Fail e) t2 ->
    NewDBEnd dsn0 cfg d w
      (Ok (None, Some (Wrap "auto-creating database" e)))
      (logged w (ledger w) (t1 ++ t2))
| end_main t1 t2 r w' :
    step (dropExisting d) (FormatDSN env (withDBName cfg ""))
      ("DROP DATABASE IF EXISTS " ++ name d ++ ";") "dropping database" (Ok tt) t1 ->
    step (autoCreate d) (FormatDSN env (withDBName cfg ""))
      ("CREATE DATABASE IF NOT EXISTS " ++ name d ++ ";") "creating database" (Ok tt) t2 ->
    mainEnd dsn0 d (logged w (ledger w) (t1 ++ t2)) r w' ->
    NewDBEnd dsn0 cfg d w r w'.

End Endings.

(** Two more servers: one whose main connection opens but does not answer
    the ping, and one that refuses every statement of a migration script. *)
Definition silentEnv : Env :=
  {| fault := fun _ _ c =>
       match c with
       | Ping MainDB => Some (External "connection refused")
       | _ => None
       end;
     reply := reply sampleEnv;
     ParseDSN := ParseDSN sampleEnv;
     FormatDSN := FormatDSN sampleEnv;
     pathJoin := pathJoin sampleEnv |}.

Definition strictEnv : Env :=
  {| fault := fun _ _ c =>
       match c with
       | Exec MainDB q [] =>
           if (q =? createMigrations)%string then None
           else Some (External "syntax error")
       | _ => None
       end;
     reply := reply sampleEnv;
     ParseDSN := ParseDSN sampleEnv;
     FormatDSN := FormatDSN sampleEnv;
     pathJoin := pathJoin sampleEnv |}.

(** ** Runs that stop at the first failure, runs that execute nothing *)

(** Every call of the trace came back without an error. *)
Definition clean (t : list event) : Prop := Forall (fun ev => snd ev = None) t.

(** A run that makes no call after one that failed: either no call failed
    and the result is not the error of a call, or the call that failed is
    the last one and the result is its error in some context. *)
Definition failFast (r : result unit) (t : list event) : Prop :=
  (clean t /\ forall context e, r <> Fail (Wrap context e)) \/
  (exists t0 c e context,
      t = (t0 ++ [(c, Some e)])%list /\ clean t0 /\ r = Fail (Wrap context e)).

(** No statement is executed on the main connection but the creation of
    the ledger table. *)
Definition quiet (t : list event) : Prop :=
  forall q args e, In (Exec MainDB q args, e) t -> q = createMigrations /\ args = [].

(** * Facts about the string functions *)

Lemma length_drop (n : nat) (s : string) :
  String.length (drop n s) = (String.length s - n)%nat.
Proof.
  revert s; induction n as [|n IH]; intros [|c s]; simpl; auto; lia.
Qed.

Lemma length_TrimLeft_le (s : string) :
  (String.length (TrimLeft s) <= String.length s)%nat.
Proof.
  induction s as [|c s IH]; simpl; [lia|].
  destruct (isSpace c); simpl; lia.
Qed.

Lemma length_TrimRight_le (s : string) :
  (String.length (TrimRight s) <= String.length s)%nat.
Proof.
  induction s as [|c s IH]; simpl; [lia|].
  destruct (TrimRight s); [destruct (isSpace c)|]; simpl in *; lia.
Qed.

Lemma length_TrimSpace_le (s : string) :
  (String.length (TrimSpace s) <= String.length s)%nat.
Proof.
  unfold TrimSpace.
  pose proof (length_TrimRight_le (TrimLeft s)).
  pose proof (length_TrimLeft_le s). lia.
Qed.

Lemma prefix_length (a s : string) :
  prefix a s = true -> (String.length a <= String.length s)%nat.
Proof.
  revert s; induction a as [|c a IH]; intros [|c' s]; simpl; try lia; try discriminate.
  destruct (ascii_dec c c'); [|discriminate].
  intros H; apply IH in H; lia.
Qed.

Lemma index_bound (d s : string) (i : nat) :
  index 0 d s = Some i -> (i + String.length d <= String.length s)%nat.
Proof.
  revert i; induction s as [|c s IH]; intros i.
  - simpl. destruct d; [intros [= <-]; simpl; lia | discriminate].
  - change (index 0 d (String c s))
      with (if prefix d (String c s) then Some 0%nat
            else match index 0 d s with Some n => Some (S n) | None => None end).
    destruct (prefix d (String c s)) eqn:P.
    + intros [= <-]. apply prefix_length in P. simpl in *; lia.
    + destruct (index 0 d s) as [j|]; [|discriminate].
      intros [= <-]. specialize (IH j eq_refl). simpl; lia.
Qed.

(** [strings.Index] answers [-1] or an offset inside the string. *)
Lemma Index_cases (s d : string) :
  (Index s d = -1 /\ index 0 d s = None) \/
  (exists i, index 0 d s = Some i /\ Index s d = Z.of_nat i
             /\ (i + String.length d <= String.length s)%nat).
Proof.
  unfold Index. destruct (index 0 d s) as [i|] eqn:E; [right|left; auto].
  exists i. repeat split; auto. now apply index_bound.
Qed.

Lemma Index_ge (s d : string) : -1 <= Index s d.
Proof.
  destruct (Index_cases s d) as [[-> _]|(i & _ & -> & _)]; lia.
Qed.

Lemma string_nonempty_length (s : string) :
  s <> EmptyString -> (0 < String.length s)%nat.
Proof. destruct s; [congruence | simpl; lia]. Qed.

Lemma eqb_empty_false (s : string) :
  s <> EmptyString -> (s =? "")%string = false.
Proof. intros H. now apply String.eqb_neq. Qed.

(** Cutting at least one byte off a non-empty string and trimming what is
    left gives a shorter string. *)
Lemma advance_shorter (sql : string) (i : Z) :
  sql <> EmptyString -> 0 <= i ->
  (String.length (TrimSpace (sliceFrom sql (i + 1))) < String.length sql)%nat.
Proof.
  intros Hne Hi. unfold sliceFrom.
  pose proof (length_TrimSpace_le (drop (Z.to_nat (i + 1)) sql)) as H1.
  rewrite length_drop in H1.
  pose proof (string_nonempty_length sql Hne). lia.
Qed.

(** * The statement loop ends *)

(** In the statement branch the delimiter was found. *)
Lemma loopBody_Statement (sql delim stmt : string) (rest : option string) :
  loopBody sql delim = Statement stmt rest ->
  0 <= Index sql delim /\
  (Index sql "delimiter " = -1 \/ Index sql delim < Index sql "delimiter ") /\
  stmt = (if (delim =? ";")%string then sliceTo sql (Index sql delim + 1)
          else sliceTo sql (Index sql delim)) /\
  rest = (if len sql <=? Index sql delim then None
          else Some (TrimSpace (sliceFrom sql (Index sql delim + 1)))).
Proof.
  unfold loopBody.
  pose proof (Index_ge sql delim) as G1.
  pose proof (Index_ge sql "delimiter ") as G2.
  destruct (Index sql delim =? -1) eqn:E1;
    destruct (Index sql "delimiter " =? -1) eqn:E2; simpl.
  - discriminate.
  - destruct (Index sql LF =? -1); [discriminate|].
    destruct (len sql <=? Index sql LF); discriminate.
  - apply Z.eqb_neq in E1. apply Z.eqb_eq in E2.
    destruct (len sql <=? Index sql delim); intros [= <- <-];
      repeat split; auto; lia.
  - apply Z.eqb_neq in E1. apply Z.eqb_neq in E2.
    destruct (Index sql delim <? Index sql "delimiter ") eqn:E3.
    + apply Z.ltb_lt in E3.
      destruct (len sql <=? Index sql delim); intros [= <- <-];
        repeat split; auto; lia.
    + destruct (Index sql LF =? -1); [discriminate|].
      destruct (len sql <=? Index sql LF); discriminate.
Qed.

(** In the directive branch the directive was found, no delimiter stands
    before it, and the remainder has a line feed. *)
Lemma loopBody_Delimiter (sql delim delim' : string) (rest : option string) :
  loopBody sql delim = Delimiter delim' rest ->
  0 <= Index sql "delimiter " /\
  (Index sql delim = -1 \/ Index sql "delimiter " <= Index sql delim) /\
  0 <= Index sql LF /\
  delim' = TrimSpace (Replace (Replace (sliceTo sql (Index sql LF + 1))
                                       "delimiter " "" 1) LF "" (-1)) /\
  rest = (if len sql <=? Index sql LF then None
          else Some (TrimSpace (sliceFrom sql (Index sql LF + 1)))).
Proof.
  unfold loopBody.
  pose proof (Index_ge sql delim) as G1.
  pose proof (Index_ge sql "delimiter ") as G2.
  pose proof (Index_ge sql LF) as G3.
  destruct (Index sql delim =? -1) eqn:E1;
    destruct (Index sql "delimiter " =? -1) eqn:E2; simpl.
  - discriminate.
  - apply Z.eqb_eq in E1. apply Z.eqb_neq in E2.
    destruct (Index sql LF =? -1) eqn:E4; [discriminate|]. apply Z.eqb_neq in E4.
    destruct (len sql <=? Index sql LF); intros [= <- <-];
      repeat split; auto; lia.
  - destruct (len sql <=? Index sql delim); discriminate.
  - apply Z.eqb_neq in E1. apply Z.eqb_neq in E2.
    destruct (Index sql delim <? Index sql "delimiter ") eqn:E3.
    + destruct (len sql <=? Index sql delim); discriminate.
    + apply Z.ltb_ge in E3.
      destruct (Index sql LF =? -1) eqn:E4; [discriminate|]. apply Z.eqb_neq in E4.
      destruct (len sql <=? Index sql LF); intros [= <- <-];
        repeat split; auto; lia.
Qed.


Lemma Statement_shorter (sql delim stmt sql' : string) :
  sql <> EmptyString ->
  loopBody sql delim = Statement stmt (Some sql') ->
  (String.length sql' < String.length sql)%nat.
Proof.
  intros Hne H. apply loopBody_Statement in H as (Hi & _ & _ & Hr).
  destruct (len sql <=? Index sql delim); [discriminate|].
  injection Hr as ->. now apply advance_shorter.
Qed.

Lemma Delimiter_shorter (sql delim delim' sql' : string) :
  sql <> EmptyString ->
  loopBody sql delim = Delimiter delim' (Some sql') ->
  (String.length sql' < String.length sql)%nat.
Proof.
  intros Hne H. apply loopBody_Delimiter in H as (_ & _ & Hi & _ & Hr).
  destruct (len sql <=? Index sql LF); [discriminate|].
  injection Hr as ->. now apply advance_shorter.
Qed.

(** The bound of [splitFrom] does not matter once it covers the text. *)
Lemma splitFrom_fuel (f1 : nat) :
  forall (f2 : nat) (sql delim : string),
    (String.length sql <= f1)%nat -> (String.length sql <= f2)%nat ->
    splitFrom f1 sql delim = splitFrom f2 sql delim.
Proof.
  induction f1 as [|f1 IH]; intros f2 sql delim H1 H2.
  - destruct sql; [|simpl in H1; lia]. destruct f2; reflexivity.
  - destruct sql as [|c s]; [destruct f2; reflexivity|].
    destruct f2 as [|f2]; [simpl in H2; lia|].
    set (sql := String c s) in *.
    assert (Hne : sql <> EmptyString) by (subst sql; discriminate).
    change (splitFrom (S f1) sql delim) with
      (match loopBody sql delim with
       | UnexpectedEnd => ([], Malformed)
       | Statement stmt None => ([stmt], Finished)
       | Statement stmt (Some sql') =>
           let (stmts, e) := splitFrom f1 sql' delim in (stmt :: stmts, e)
       | Delimiter _ None => ([], Finished)
       | Delimiter delim' (Some sql') => splitFrom f1 sql' delim'
       | NoLineEnd => ([], Finished)
       end).
    change (splitFrom (S f2) sql delim) with
      (match loopBody sql delim with
       | UnexpectedEnd => ([], Malformed)
       | Statement stmt None => ([stmt], Finished)
       | Statement stmt (Some sql') =>
           let (stmts, e) := splitFrom f2 sql' delim in (stmt :: stmts, e)
       | Delimiter _ None => ([], Finished)
       | Delimiter delim' (Some sql') => splitFrom f2 sql' delim'
       | NoLineEnd => ([], Finished)
       end).
    destruct (loopBody sql delim) as [|stmt [sql'|]|delim' [sql'|]|] eqn:E; auto.
    + pose proof (Statement_shorter _ _ _ _ Hne E).
      rewrite (IH f2 sql' delim); [reflexivity | lia | lia].
    + pose proof (Delimiter_shorter _ _ _ _ Hne E).
      apply IH; lia.
Qed.

Lemma splitAll_empty (delim : string) : splitAll EmptyString delim = ([], Finished).
Proof. reflexivity. Qed.

(** The unfolding of the loop, free of the bound. *)
Lemma splitAll_step (sql delim : string) :
  sql <> EmptyString ->
  splitAll sql delim =
    match loopBody sql delim with
    | UnexpectedEnd => ([], Malformed)
    | Statement stmt None => ([stmt], Finished)
    | Statement stmt (Some sql') =>
        (stmt :: fst (splitAll sql' delim), snd (splitAll sql' delim))
    | Delimiter _ None => ([], Finished)
    | Delimiter delim' (Some sql') => splitAll sql' delim'
    | NoLineEnd => ([], Finished)
    end.
Proof.
  intros Hne. unfold splitAll.
  destruct sql as [|c s]; [congruence|].
  set (sql := String c s) in *.
  change (splitFrom (String.length sql) sql delim) with
    (match loopBody sql delim with
     | UnexpectedEnd => ([], Malformed)
     | Statement stmt None => ([stmt], Finished)
     | Statement stmt (Some sql') =>
         let (stmts, e) := splitFrom (String.length s) sql' delim in (stmt :: stmts, e)
     | Delimiter _ None => ([], Finished)
     | Delimiter delim' (Some sql') => splitFrom (String.length s) sql' delim'
     | NoLineEnd => ([], Finished)
     end).
  destruct (loopBody sql delim) as [|stmt [sql'|]|delim' [sql'|]|] eqn:E; auto.
  - pose proof (Statement_shorter _ _ _ _ Hne E) as L. subst sql. simpl in L.
    rewrite (splitFrom_fuel (String.length s) (String.length sql') sql' delim) by lia.
    destruct (splitFrom (String.length sql') sql' delim); reflexivity.
  - pose proof (Delimiter_shorter _ _ _ _ Hne E) as L. subst sql. simpl in L.
    apply splitFrom_fuel; lia.
Qed.



(** * Trimmed strings *)












Lemma take_S (n : nat) (c : ascii) (s : string) :
  take (S n) (String c s) = String c (take n s).
Proof. reflexivity. Qed.



(** * The states of the loop and what the splitter returns *)








(** * The shape of a statement *)


(** * The delimiter example, turn by turn *)


Lemma length_append_s (a b : string) :
  String.length (a ++ b) = (String.length a + String.length b)%nat.
Proof. induction a; simpl; congruence. Qed.


Lemma drop_app_length (a b : string) (k : nat) :
  drop (String.length a + k) (a ++ b) = drop k b.
Proof. induction a as [|c a IH]; simpl; auto. Qed.







Lemma loopBody_at_directive (sql delim : string) :
  0 <= Index sql "delimiter " ->
  Index sql delim = -1 \/ Index sql "delimiter " <= Index sql delim ->
  loopBody sql delim =
    if Index sql LF =? -1 then NoLineEnd
    else
      let delim' := TrimSpace (Replace (Replace (sliceTo sql (Index sql LF + 1))
                                                "delimiter " "" 1) LF "" (-1)) in
      if len sql <=? Index sql LF then Delimiter delim' None
      else Delimiter delim' (Some (TrimSpace (sliceFrom sql (Index sql LF + 1)))).
Proof.
  intros Hc Hi. unfold loopBody.
  replace (Index sql "delimiter " =? -1) with false by (symmetry; apply Z.eqb_neq; lia).
  rewrite andb_false_r. simpl.
  assert (negb (Index sql delim =? -1)
          && (Index sql delim <? Index sql "delimiter ") = false) as ->.
  { destruct Hi as [-> | Hi]; [reflexivity|].
    apply andb_false_iff; right. now apply Z.ltb_ge. }
  reflexivity.
Qed.











(** C4 (the code differs). Under the delimiter [$$] the remainder [A$$],
    line feed, [B$$] gives the statement [A], and the scan then moves on by
    one byte only: the second [$] of the delimiter opens the next
    remainder. The script [delimiter $$], [A$$], [B$$] therefore hands the
    database [A], then [$] line feed [B], and ends with the unexpected-end
    error on the last [$]. *)
Theorem C4_advance_is_one_byte :
  loopBody ("A$$" ++ LF ++ "B$$") "$$"
    = Statement "A" (Some ("$" ++ LF ++ "B$$")) /\
  split ("delimiter $$" ++ LF ++ "A$$" ++ LF ++ "B$$")
    = (["A"; "$" ++ LF ++ "B"], Malformed).
Proof. split; reflexivity. Qed.

(** C5 (the code differs). When the directive token is not at the start of
    the remainder, the line end taken is the first line feed of the
    remainder, not the one behind the token. With a comment line in front,
    the new delimiter is the comment; with text in front on the same line,
    that text becomes part of the delimiter. *)
Theorem C5_line_end_is_first_line_feed :
  loopBody ("-- c" ++ LF ++ "delimiter $$" ++ LF ++ "SELECT 1$$") ";"
    = Delimiter "-- c" (Some ("delimiter $$" ++ LF ++ "SELECT 1$$")) /\
  loopBody ("/* c */ delimiter $$" ++ LF ++ "SELECT 1$$") ";"
    = Delimiter "/* c */ $$" (Some "SELECT 1$$") /\
  split ("/* c */ delimiter $$" ++ LF ++ "SELECT 1$$") = ([], Malformed).
Proof. repeat split; reflexivity. Qed.

(** * A directive at the start of the remainder *)










(** * The order of the migration files *)

Lemma ascii_compare_lt_trans (a b c : ascii) :
  Ascii.compare a b = Lt -> Ascii.compare b c = Lt -> Ascii.compare a c = Lt.
Proof.
  unfold Ascii.compare. rewrite !N.compare_lt_iff. apply N.lt_trans.
Qed.

Lemma compare_lt_trans (s1 : string) :
  forall s2 s3, String.compare s1 s2 = Lt -> String.compare s2 s3 = Lt ->
                String.compare s1 s3 = Lt.
Proof.
  induction s1 as [|a s1 IH]; intros [|b s2] [|c s3]; simpl; try congruence.
  destruct (Ascii.compare a b) eqn:Eab; try discriminate;
    destruct (Ascii.compare b c) eqn:Ebc; try discriminate; intros H1 H2.
  - apply Ascii.compare_eq_iff in Eab, Ebc. subst.
    assert (Ascii.compare c c = Eq) as -> by (unfold Ascii.compare; apply N.compare_refl).
    eauto.
  - apply Ascii.compare_eq_iff in Eab. subst. now rewrite Ebc.
  - apply Ascii.compare_eq_iff in Ebc. subst. now rewrite Eab.
  - now rewrite (ascii_compare_lt_trans a b c).
Qed.

Lemma leb_lt_or_eq (a b : string) :
  String.leb a b = true <-> String.compare a b = Lt \/ a = b.
Proof.
  unfold String.leb. split.
  - destruct (String.compare a b) eqn:E; try discriminate; auto.
    right. now apply String.compare_eq_iff.
  - intros [->| ->]; [reflexivity|].
    assert (String.compare b b = Eq) as ->; [|reflexivity].
    induction b as [|c b IH]; simpl; auto.
    assert (Ascii.compare c c = Eq) as -> by (unfold Ascii.compare; apply N.compare_refl).
    exact IH.
Qed.

Lemma le_trans (a b c : string) : le a b -> le b c -> le a c.
Proof.
  unfold le. rewrite !leb_lt_or_eq.
  intros [H1| ->] [H2| ->]; auto. left. eapply compare_lt_trans; eauto.
Qed.

Lemma le_total (a b : string) : le a b \/ le b a.
Proof. apply String.leb_total. Qed.

Lemma le_antisym (a b : string) : le a b -> le b a -> a = b.
Proof. apply String.leb_antisym. Qed.

(** [sort.Strings] gives a sorted arrangement of its argument. *)
Lemma insert_perm (x : string) (l : list string) : Permutation (x :: l) (insert x l).
Proof.
  induction l as [|y l IH]; simpl; auto.
  destruct (String.leb x y); auto.
  eapply perm_trans; [apply perm_swap|]. now constructor.
Qed.

Lemma sortStrings_perm (l : list string) : Permutation l (sortStrings l).
Proof.
  induction l as [|x l IH]; simpl; auto.
  eapply perm_trans; [|apply insert_perm]. now constructor.
Qed.

Lemma insert_sorted (x : string) (l : list string) :
  StronglySorted le l -> StronglySorted le (insert x l).
Proof.
  induction 1 as [|y l Hs IH Hy]; simpl.
  - repeat constructor.
  - destruct (String.leb x y) eqn:E.
    + constructor; [now constructor|].
      constructor; [exact E|].
      eapply Forall_impl; [|exact Hy]. intros z Hz. eapply le_trans; eauto.
    + constructor; [exact IH|].
      assert (Hyx : le y x) by (destruct (le_total x y) as [H'|H']; [unfold le in H'; congruence | exact H']).
      eapply Permutation_Forall; [apply insert_perm|].
      now constructor.
Qed.

Lemma sortStrings_sorted (l : list string) : StronglySorted le (sortStrings l).
Proof.
  induction l as [|x l IH]; simpl; [constructor | now apply insert_sorted].
Qed.

(** Two sorted arrangements of the same names are the same list. *)
Lemma sorted_perm_eq (l1 : list string) :
  forall l2, StronglySorted le l1 -> StronglySorted le l2 ->
             Permutation l1 l2 -> l1 = l2.
Proof.
  induction l1 as [|x l1 IH]; intros l2 S1 S2 P.
  - apply Permutation_nil in P. now subst.
  - destruct l2 as [|y l2].
    { apply Permutation_sym, Permutation_nil in P. discriminate. }
    inversion S1 as [|? ? S1' F1]; inversion S2 as [|? ? S2' F2]; subst.
    assert (x = y) as ->.
    { assert (Hx : In x (y :: l2)) by (eapply Permutation_in; [exact P | now left]).
      assert (Hy : In y (x :: l1))
        by (eapply Permutation_in; [apply Permutation_sym; exact P | now left]).
      destruct Hx as [->|Hx]; auto. destruct Hy as [->|Hy]; auto.
      rewrite Forall_forall in F1, F2.
      apply le_antisym; auto. }
    f_equal. apply IH; auto. now apply Permutation_cons_inv in P.
Qed.

Lemma filter_perm {A : Type} (f : A -> bool) (l l' : list A) :
  Permutation l l' -> Permutation (filter f l) (filter f l').
Proof.
  induction 1 as [|x l l' _ IH|x y l|l l' l'' _ IH1 _ IH2]; simpl.
  - constructor.
  - destruct (f x); auto.
  - destruct (f x), (f y); auto. apply perm_swap.
  - eapply perm_trans; eauto.
Qed.

Lemma collect_filter (entries : list DirEntry) :
  collect entries = map Name (filter (fun e => negb (skipped e)) entries).
Proof.
  unfold collect.
  assert (G : forall acc,
             fold_left (fun (migrations : list string) entry =>
                          if skipped entry then migrations
                          else (migrations ++ [Name entry])%list) entries acc
             = (acc ++ map Name (filter (fun e => negb (skipped e)) entries))%list).
  { induction entries as [|e es IH]; intros acc; simpl.
    - now rewrite app_nil_r.
    - rewrite IH. destruct (skipped e); simpl; auto.
      now rewrite <- app_assoc. }
  apply (G []).
Qed.

Lemma migrationNames_perm (entries entries' : list DirEntry) :
  Permutation entries entries' -> migrationNames entries' = migrationNames entries.
Proof.
  intros P. unfold migrationNames.
  apply sorted_perm_eq; try apply sortStrings_sorted.
  eapply perm_trans; [apply Permutation_sym, sortStrings_perm|].
  eapply perm_trans; [|apply sortStrings_perm].
  rewrite !collect_filter.
  apply Permutation_map, filter_perm, Permutation_sym, P.
Qed.

Lemma migrationNames_In (entries : list DirEntry) (n : string) :
  In n (migrationNames entries) <->
  exists e, In e entries /\ Name e = n /\ IsDir e = false /\
            ToLower (Ext (Name e)) = ".sql".
Proof.
  unfold migrationNames. split.
  - intros H. apply (Permutation_in _ (Permutation_sym (sortStrings_perm _))) in H.
    rewrite collect_filter in H. apply in_map_iff in H as (e & <- & He).
    apply filter_In in He as [He Hk]. exists e.
    unfold skipped in Hk. apply negb_true_iff, orb_false_iff in Hk as [Hd Hx].
    apply negb_false_iff, String.eqb_eq in Hx. auto.
  - intros (e & He & <- & Hd & Hx).
    apply (Permutation_in _ (sortStrings_perm _)).
    rewrite collect_filter. apply in_map, filter_In. split; auto.
    unfold skipped. rewrite Hd, Hx. reflexivity.
Qed.

(** * Runs of the migration loop *)

Lemma lookups_executed (l : list string) : lookups (map executed l) = [].
Proof. induction l; simpl; auto. Qed.
Lemma reads_executed (l : list string) : reads (map executed l) = [].
Proof. induction l; simpl; auto. Qed.
Lemma records_executed (l : list string) : records (map executed l) = [].
Proof. induction l; simpl; auto. Qed.

Lemma lookups_app (a b : list event) : lookups (a ++ b) = (lookups a ++ lookups b)%list.
Proof. apply flat_map_app. Qed.
Lemma reads_app (a b : list event) : reads (a ++ b) = (reads a ++ reads b)%list.
Proof. apply flat_map_app. Qed.
Lemma records_app (a b : list event) : records (a ++ b) = (records a ++ records b)%list.
Proof. apply flat_map_app. Qed.

Lemma hasName_app (n : string) (a b : list string) :
  hasName n (a ++ b) = hasName n a || hasName n b.
Proof. apply existsb_app. Qed.

Lemma hasName_last (n : string) (a : list string) : hasName n (a ++ [n]) = true.
Proof.
  rewrite hasName_app. simpl. rewrite String.eqb_refl. now rewrite orb_true_r.
Qed.

Section Runs.

Variable env : Env.

Lemma wrap_invoke (context : string) (c : call) (w : World) :
  wrap context (invoke env c) w =
    match fault env (ledger w) (trace w) c with
    | None => (Ok tt, logged w (effect c (ledger w)) [(c, None)])
    | Some e => (Fail (Wrap context e), logged w (ledger w) [(c, Some e)])
    end.
Proof.
  unfold wrap, catch, invoke, logged.
  destruct (fault env (ledger w) (trace w) c); reflexivity.
Qed.

Lemma logged_logged (w : World) (l1 l2 : list string) (t1 t2 : list event) :
  logged (logged w l1 t1) l2 t2 = logged w l2 (t1 ++ t2).
Proof. unfold logged. simpl. now rewrite app_assoc. Qed.

Lemma logged_nil (w : World) : logged w (ledger w) [] = w.
Proof. unfold logged. rewrite app_nil_r. now destruct w. Qed.

Lemma statementsEnd_after (migration sql delim stmt : string) (sql' delim' : string)
      (w : World) (r : result unit) (w' : World) (pre : list string) :
  fst (splitAll sql delim) = (pre ++ fst (splitAll sql' delim'))%list ->
  snd (splitAll sql delim) = snd (splitAll sql' delim') ->
  statementsEnd migration sql' delim' (logged w (ledger w) (map executed pre)) r w' ->
  statementsEnd migration sql delim w r w'.
Proof.
  intros Hf Hs H. inversion H; subst; simpl ledger; rewrite logged_logged.
  - rewrite <- map_app, <- Hf. constructor. congruence.
  - rewrite <- map_app, <- Hf. constructor. congruence.
  - rewrite app_assoc, <- map_app. econstructor.
    rewrite Hf, H0. now rewrite app_assoc.
Qed.

Lemma statements_run (d : DB) (migration : string) (fuel : nat) :
  db d = MainDB ->
  forall sql delim w,
    (String.length sql <= fuel)%nat ->
    statementsEnd migration sql delim w
      (fst (statements env d fuel migration sql delim w))
      (snd (statements env d fuel migration sql delim w)).
Proof.
  intros Hd. induction fuel as [|fuel IH]; intros sql delim w L.
  - destruct sql; [|simpl in L; lia]. simpl.
    rewrite <- (logged_nil w) at 2. now constructor.
  - destruct sql as [|c s].
    { simpl. rewrite <- (logged_nil w) at 2. now constructor. }
    set (sql := String c s) in *.
    assert (Hne : sql <> EmptyString) by (subst sql; discriminate).
    pose proof (splitAll_step sql delim Hne) as St.
    change (statements env d (S fuel) migration sql delim) with
      (match loopBody sql delim with
       | UnexpectedEnd =>
           fail (Errorf ("unexpected end of migration: " ++ migration))
       | Statement stmt rest =>
           wrap "executing migration statement" (sqlExec env (db d) stmt []) ;;;
           match rest with
           | None => ret tt
           | Some sql' => statements env d fuel migration sql' delim
           end
       | Delimiter delim' rest =>
           match rest with
           | None => ret tt
           | Some sql' => statements env d fuel migration sql' delim'
           end
       | NoLineEnd => ret tt
       end).
    destruct (loopBody sql delim) as [|stmt rest|delim' rest|] eqn:E.
    + simpl. rewrite <- (logged_nil w) at 2.
      replace ([] : list event) with (map executed (fst (splitAll sql delim)))
        by now rewrite St.
      apply ended_malformed. now rewrite St.
    + rewrite Hd. unfold bind, sqlExec. rewrite wrap_invoke.
      destruct (fault env (ledger w) (trace w) (Exec MainDB stmt [])) as [e|] eqn:F.
      * simpl. apply (ended_failed _ _ _ _ [] stmt
                         (match rest with Some sql' => fst (splitAll sql' delim) | None => [] end) e).
        rewrite St. destruct rest; reflexivity.
      * simpl effect. destruct rest as [sql'|].
        -- pose proof (Statement_shorter _ _ _ _ Hne E) as Sh.
           apply (statementsEnd_after migration sql delim stmt sql' delim w _ _ [stmt]).
           ++ now rewrite St.
           ++ now rewrite St.
           ++ apply IH. subst sql; simpl in *; lia.
        -- simpl. replace [(Exec MainDB stmt [], None)]
             with (map executed (fst (splitAll sql delim))) by now rewrite St.
           apply ended_finished. now rewrite St.
    + destruct rest as [sql'|].
      * pose proof (Delimiter_shorter _ _ _ _ Hne E) as Sh.
        apply (statementsEnd_after migration sql delim "" sql' delim' w _ _ []).
        -- now rewrite St.
        -- now rewrite St.
        -- simpl map. rewrite logged_nil. apply IH. subst sql; simpl in *; lia.
      * simpl. rewrite <- (logged_nil w) at 2.
        replace ([] : list event) with (map executed (fst (splitAll sql delim)))
          by now rewrite St.
        apply ended_finished. now rewrite St.
    + simpl. rewrite <- (logged_nil w) at 2.
      replace ([] : list event) with (map executed (fst (splitAll sql delim)))
        by now rewrite St.
      apply ended_finished. now rewrite St.
Qed.

Lemma bind_run {A B : Type} (m : M A) (k : A -> M B) (w : World) :
  bind m k w =
    match m w with
    | (Ok a, w') => k a w'
    | (Fail e, w') => (Fail e, w')
    | (Panic, w') => (Panic, w')
    | (OutOfFuel, w') => (OutOfFuel, w')
    end.
Proof. reflexivity. Qed.

Lemma sqlQueryRow_run (h : handle) (q : string) (args : list value) (w : World) :
  sqlQueryRow env h q args w =
    (Ok (match fault env (ledger w) (trace w) (QueryRow h q args) with
         | Some e => inl e
         | None => inr (answer env w (QueryRow h q args))
         end),
     logged w (ledger w)
       [(QueryRow h q args, fault env (ledger w) (trace w) (QueryRow h q args))]).
Proof. reflexivity. Qed.

Lemma wrap_scanBool (context : string) (row : Row) (b : bool) (w : World) :
  wrap context (scanBool row b) w =
    match row with
    | inl e => (Fail (Wrap context e), w)
    | inr src =>
        match Bool_Scan b src with
        | inl e => (Fail (Wrap context e), w)
        | inr b' => (Ok b', w)
        end
    end.
Proof.
  destruct row as [e|src]; [reflexivity|].
  unfold wrap, catch, scanBool. destruct (Bool_Scan b src); reflexivity.
Qed.

Lemma wrap_ReadFileFS (context : string) (f : FS) (p : string) (w : World) :
  wrap context (ReadFileFS (Some f) p) w =
    match fsReadFile f p with
    | inl e => (Fail (Wrap context e), logged w (ledger w) [(ReadFile p, Some e)])
    | inr s => (Ok s, logged w (ledger w) [(ReadFile p, None)])
    end.
Proof.
  unfold wrap, catch, ReadFileFS. destruct (fsReadFile f p); reflexivity.
Qed.

Lemma wrap_ReadFileFS_nil (context : string) (p : string) (w : World) :
  wrap context (ReadFileFS None p) w = (Panic, w).
Proof. reflexivity. Qed.

Lemma applyMigration_run (d : DB) (migration : string) (w : World) :
  db d = MainDB ->
  applied env d migration w
    (fst (applyMigration env d migration w))
    (snd (applyMigration env d migration w)).
Proof.
  intros Hd. unfold applyMigration. rewrite Hd.
  rewrite bind_run, sqlQueryRow_run. fold (lookup migration).
  destruct (fault env (ledger w) (trace w) (lookup migration)) as [e|] eqn:F.
  { rewrite bind_run, wrap_scanBool. simpl. apply applied_lookup_failed. }
  unfold answer, lookup. rewrite String.eqb_refl. fold (lookup migration).
  set (w1 := logged w (ledger w) [(lookup migration, None)]).
  rewrite bind_run, wrap_scanBool.
  destruct (hasName migration (ledger w)) eqn:Hn.
  { simpl. now apply applied_skipped. }
  simpl Bool_Scan. cbv iota.
  set (p := pathJoin env (migrationsDir d) migration).
  rewrite bind_run.
  destruct (migrationsFS d) as [f|] eqn:Hf.
  2:{ rewrite wrap_ReadFileFS_nil. simpl. now apply applied_no_fs. }
  rewrite wrap_ReadFileFS.
  destruct (fsReadFile f p) as [e|s] eqn:Hr.
  { subst w1. rewrite logged_logged. simpl.
    now apply (applied_read_failed env d migration w f e). }
  subst w1. rewrite logged_logged. simpl ledger. simpl app.
  rewrite bind_run.
  pose proof (statements_run d migration (String.length (TrimSpace s)) Hd
                (TrimSpace s) ";"
                (logged w (ledger w) [(lookup migration, None); (ReadFile p, None)])
                (Nat.le_refl _)) as Hs.
  match goal with
  | |- context [statements ?x1 ?x2 ?x3 ?x4 ?x5 ?x6 ?x7] =>
      change (statements x1 x2 x3 x4 x5 x6 x7)
        with (statements env d (String.length (TrimSpace s)) migration (TrimSpace s) ";"
                (logged w (ledger w) [(lookup migration, None); (ReadFile p, None)]))
  end.
  destruct (statements env d (String.length (TrimSpace s)) migration (TrimSpace s) ";"
              (logged w (ledger w) [(lookup migration, None); (ReadFile p, None)]))
    as [r w3]. simpl in Hs.
  inversion Hs; subst; cbv beta iota.
  - unfold sqlExec. rewrite wrap_invoke. fold (record migration).
    destruct (fault env _ _ (record migration)) as [e|].
    + simpl. rewrite !logged_logged. simpl ledger.
      now apply (applied_record_failed env d migration w f s e).
    + simpl fst. simpl snd. rewrite !logged_logged.
      simpl ledger. unfold record at 1. simpl effect. rewrite ?String.eqb_refl.
      now apply (applied_recorded env d migration w f s).
  - simpl. eapply applied_stopped; eauto.
  - simpl. eapply applied_stopped; eauto.
Qed.

Lemma statementsEnd_trace (migration sql delim : string) (w : World)
      (r : result unit) (w' : World) :
  statementsEnd migration sql delim w r w' ->
  exists t, w' = logged w (ledger w) t /\
            lookups t = [] /\ reads t = [] /\ records t = [] /\
            r <> OutOfFuel /\ r <> Panic.
Proof.
  intros H. inversion H; subst.
  - exists (map executed (fst (splitAll sql delim))).
    rewrite lookups_executed, reads_executed, records_executed.
    repeat split; auto; discriminate.
  - exists (map executed (fst (splitAll sql delim))).
    rewrite lookups_executed, reads_executed, records_executed.
    repeat split; auto; discriminate.
  - exists (map executed done ++ [(Exec MainDB stmt [], Some e)])%list.
    rewrite lookups_app, reads_app, records_app.
    rewrite lookups_executed, reads_executed, records_executed.
    repeat split; auto; discriminate.
Qed.

(** What one turn of the migration loop leaves behind. *)
Lemma applied_facts (d : DB) (migration : string) (w : World)
      (r : result unit) (w' : World) :
  applied env d migration w r w' ->
  exists t,
    w' = logged w (ledger w') t /\
    lookups t = [migration] /\
    incl (reads t) [pathJoin env (migrationsDir d) migration] /\
    incl (records t) [migration] /\
    (ledger w' = ledger w \/
     (r = Ok tt /\ ledger w' = (ledger w ++ [migration])%list)) /\
    (hasName migration (ledger w) = true -> ledger w' = ledger w /\ noExec t) /\
    (r = Ok tt -> hasName migration (ledger w') = true) /\
    r <> OutOfFuel.
Proof.
  intros H. inversion H; subst.
  - eexists. split; [reflexivity|]. simpl ledger.
    repeat split; auto; try discriminate; try (intros ? []).
    repeat constructor.
  - eexists. split; [reflexivity|]. simpl ledger.
    repeat split; auto; try discriminate; try (intros ? []).
    repeat constructor.
  - eexists. split; [reflexivity|]. simpl ledger.
    repeat split; auto; try discriminate; try congruence; try (intros ? []).
  - eexists. split; [reflexivity|]. simpl ledger.
    repeat split; auto; try discriminate; try congruence.
    + intros ? [<-|[]]. now left.
    + intros ? [].
  - apply statementsEnd_trace in H3 as (t & -> & Hl & Hr & Hc & _ & _).
    rewrite logged_logged. simpl ledger.
    eexists. split; [reflexivity|].
    rewrite lookups_app, reads_app, records_app, Hl, Hr, Hc.
    repeat split; auto; try discriminate; try congruence.
    + intros ? [<-|[]]. now left.
    + intros ? [].
  - eexists. split; [reflexivity|]. simpl ledger.
    rewrite !lookups_app, !reads_app, !records_app.
    rewrite lookups_executed, reads_executed, records_executed.
    repeat split; auto; try discriminate; try congruence.
    + intros ? [<-|[]]. now left.
    + intros ? [<-|[]]. now left.
  - eexists. split; [reflexivity|]. simpl ledger.
    rewrite !lookups_app, !reads_app, !records_app.
    rewrite lookups_executed, reads_executed, records_executed.
    repeat split; auto; try discriminate; try congruence.
    + intros ? [<-|[]]. now left.
    + intros ? [<-|[]]. now left.
    + intros _. apply hasName_last.
Qed.

Lemma hasName_grows (n : string) (a b : list string) :
  hasName n a = true -> hasName n (a ++ b) = true.
Proof. intros H. now rewrite hasName_app, H. Qed.

Lemma noExec_app (a b : list event) : noExec a -> noExec b -> noExec (a ++ b).
Proof. intros Ha Hb. apply Forall_app. now split. Qed.

(** What the migration loop leaves behind. *)
Lemma migrate_facts (d : DB) :
  db d = MainDB ->
  forall (names : list string) (w : World),
  exists t,
    snd (migrate env d names w) = logged w (ledger (snd (migrate env d names w))) t /\
    (exists later, names = (lookups t ++ later)%list) /\
    (fst (migrate env d names w) = Ok tt ->
     lookups t = names /\
     forall n, In n names -> hasName n (ledger (snd (migrate env d names w))) = true) /\
    incl (reads t) (map (pathJoin env (migrationsDir d)) names) /\
    incl (records t) names /\
    (exists added, ledger (snd (migrate env d names w)) = (ledger w ++ added)%list
                   /\ incl added names) /\
    ((forall n, In n names -> hasName n (ledger w) = true) ->
     ledger (snd (migrate env d names w)) = ledger w /\ noExec t) /\
    fst (migrate env d names w) <> OutOfFuel.
Proof.
  intros Hd. induction names as [|m later IH]; intros w.
  - exists []. simpl. rewrite logged_nil.
    split; [reflexivity|]. split; [now exists []|].
    split; [intros _; split; [reflexivity | intros ? []]|].
    split; [intros ? []|]. split; [intros ? []|].
    split; [exists []; rewrite app_nil_r; split; [reflexivity | intros ? []]|].
    split; [intros _; split; [reflexivity | constructor] | discriminate].
  - change (migrate env d (m :: later))
      with (applyMigration env d m ;;; migrate env d later).
    rewrite bind_run.
    pose proof (applyMigration_run d m w Hd) as Ha.
    destruct (applyMigration env d m w) as [r1 w1]. simpl in Ha.
    apply applied_facts in Ha as (t1 & Hw1 & Hl1 & Hr1 & Hc1 & Hg1 & Hs1 & Ho1 & Hf1).
    destruct r1 as [[]|e| |].
    2,3,4: (exists t1; simpl fst; simpl snd; rewrite Hl1;
      (split; [exact Hw1|]);
      (split; [now exists later|]);
      (split; [intros HR; discriminate HR|]);
      (split; [intros p Hp; apply Hr1 in Hp as [<-|[]]; now left|]);
      (split; [intros n Hn; apply Hc1 in Hn as [<-|[]]; now left|]);
      (split; [destruct Hg1 as [Hg1|[Hg1 _]]; [|discriminate Hg1];
               exists []; rewrite app_nil_r; split; [exact Hg1 | intros ? []]|]);
      (split; [intros Hall; apply Hs1; apply Hall; now left
              | first [exact Hf1 | discriminate]])).
    destruct (IH w1) as (t2 & Hw2 & (rest & Hl2) & Hok & Hr2 & Hc2 & (added & Hg2 & Hi2) & Hs2 & Hf2).
    set (R := migrate env d later w1) in *.
    exists (t1 ++ t2)%list.
    rewrite lookups_app, reads_app, records_app, Hl1.
    split; [|split; [|split; [|split; [|split; [|split; [|split]]]]]].
    + rewrite Hw2. rewrite Hw1 at 1. rewrite logged_logged. reflexivity.
    + exists rest. simpl. now rewrite <- Hl2.
    + intros HR. destruct (Hok HR) as [E1 E2]. split.
      * simpl. now rewrite E1.
      * intros n [<-|Hn]; [|now apply E2].
        rewrite Hg2. apply hasName_grows. now apply Ho1.
    + intros p Hp. apply in_app_or in Hp as [Hp|Hp].
      * apply Hr1 in Hp as [<-|[]]. now left.
      * right. now apply Hr2.
    + intros n Hn. apply in_app_or in Hn as [Hn|Hn].
      * apply Hc1 in Hn as [<-|[]]. now left.
      * right. now apply Hc2.
    + destruct Hg1 as [Hg1|[_ Hg1]].
      * exists added. rewrite Hg2, Hg1. split; [reflexivity|].
        intros n Hn. right. now apply Hi2.
      * exists (m :: added). rewrite Hg2, Hg1, <- app_assoc. split; [reflexivity|].
        intros n [<-|Hn]; [now left | right; now apply Hi2].
    + intros Hall.
      destruct (Hs1 (Hall m (or_introl eq_refl))) as [E1 N1].
      destruct Hs2 as [E2 N2].
      { intros n Hn. rewrite E1. apply Hall. now right. }
      split; [congruence | now apply noExec_app].
    + exact Hf2.
Qed.

End Runs.

(** * Runs of [runMigrations] *)

Section RunnerFacts.

Variable env : Env.

Lemma wrap_ReadDirFS (context : string) (f : FS) (dir : string) (w : World) :
  wrap context (ReadDirFS (Some f) dir) w =
    match fsReadDir f dir with
    | inl e => (Fail (Wrap context e), logged w (ledger w) [(ReadDir dir, Some e)])
    | inr es => (Ok es, logged w (ledger w) [(ReadDir dir, None)])
    end.
Proof.
  unfold wrap, catch, ReadDirFS. destruct (fsReadDir f dir); reflexivity.
Qed.

Lemma onlyWork_executed (l : list string) : onlyWork (map executed l).
Proof. induction l; constructor; auto. Qed.

Lemma statementsEnd_work (migration sql delim : string) (w : World)
      (r : result unit) (w' : World) :
  statementsEnd migration sql delim w r w' ->
  exists t, w' = logged w (ledger w) t /\ onlyWork t.
Proof.
  intros H. inversion H; subst; eexists; (split; [reflexivity|]).
  - apply onlyWork_executed.
  - apply onlyWork_executed.
  - apply Forall_app. split; [apply onlyWork_executed | repeat constructor].
Qed.

Lemma applied_work (d : DB) (migration : string) (w : World)
      (r : result unit) (w' : World) :
  applied env d migration w r w' ->
  exists t, w' = logged w (ledger w') t /\ onlyWork t.
Proof.
  intros H. inversion H; subst;
    try (eexists; split; [reflexivity|]; simpl ledger;
         repeat first [apply Forall_app; split | apply onlyWork_executed
                      | constructor; [reflexivity|] | constructor ]; fail).
  apply statementsEnd_work in H3 as (t & -> & Ht).
  rewrite logged_logged. eexists. split; [reflexivity|].
  apply Forall_app. split; [repeat constructor | exact Ht].
Qed.

Lemma migrate_work (d : DB) :
  db d = MainDB ->
  forall (names : list string) (w : World),
  exists t,
    snd (migrate env d names w) = logged w (ledger (snd (migrate env d names w))) t /\
    onlyWork t.
Proof.
  intros Hd. induction names as [|m later IH]; intros w.
  - exists []. simpl. rewrite logged_nil. split; [reflexivity | constructor].
  - change (migrate env d (m :: later))
      with (applyMigration env d m ;;; migrate env d later).
    rewrite bind_run.
    pose proof (applyMigration_run env d m w Hd) as Ha.
    destruct (applyMigration env d m w) as [r1 w1]. simpl in Ha.
    apply applied_work in Ha as (t1 & Hw1 & Ht1).
    destruct r1 as [[]|e| |]; try (exists t1; simpl; auto; fail).
    destruct (IH w1) as (t2 & Hw2 & Ht2).
    exists (t1 ++ t2)%list. split; [|now apply Forall_app].
    rewrite Hw2. rewrite Hw1 at 1. now rewrite logged_logged.
Qed.

(** What [runMigrations] leaves behind. *)
Lemma runMigrations_work (d : DB) (w : World) :
  db d = MainDB ->
  exists t,
    snd (runMigrations env d w) = logged w (ledger (snd (runMigrations env d w))) t /\
    onlyWork t /\
    fst (runMigrations env d w) <> OutOfFuel.
Proof.
  intros Hd. unfold runMigrations. rewrite Hd.
  rewrite bind_run. unfold sqlExec. rewrite wrap_invoke.
  destruct (fault env (ledger w) (trace w) (Exec MainDB createMigrations [])) as [e|].
  { eexists. split; [reflexivity|]. split; [repeat constructor | discriminate]. }
  simpl effect. rewrite bind_run.
  destruct (migrationsFS d) as [f|].
  2:{ simpl. eexists. split; [reflexivity|]. split; [repeat constructor | discriminate]. }
  rewrite wrap_ReadDirFS.
  destruct (fsReadDir f (migrationsDir d)) as [e|entries].
  { rewrite logged_logged. eexists. split; [reflexivity|].
    split; [repeat constructor | discriminate]. }
  rewrite logged_logged. simpl ledger. simpl app.
  destruct (migrate_work d Hd (migrationNames entries)
              (logged w (ledger w)
                 [(Exec MainDB createMigrations [], None);
                  (ReadDir (migrationsDir d), None)]))
    as (t & Hw & Ht).
  destruct (migrate_facts env d Hd (migrationNames entries)
              (logged w (ledger w)
                 [(Exec MainDB createMigrations [], None);
                  (ReadDir (migrationsDir d), None)]))
    as (_ & _ & _ & _ & _ & _ & _ & _ & Hf).
  eexists. split; [|split; [|exact Hf]].
  - rewrite Hw at 1. rewrite logged_logged. reflexivity.
  - apply Forall_app. split; [repeat constructor | exact Ht].
Qed.

Lemma runMigrations_facts (d : DB) (f : FS) (entries : list DirEntry) (w : World) :
  db d = MainDB ->
  migrationsFS d = Some f ->
  fsReadDir f (migrationsDir d) = inr entries ->
  exists t,
    snd (runMigrations env d w) = logged w (ledger (snd (runMigrations env d w))) t /\
    (exists later, migrationNames entries = (lookups t ++ later)%list) /\
    (fst (runMigrations env d w) = Ok tt ->
     lookups t = migrationNames entries /\
     forall n, In n (migrationNames entries) ->
               hasName n (ledger (snd (runMigrations env d w))) = true) /\
    incl (reads t) (map (pathJoin env (migrationsDir d)) (migrationNames entries)) /\
    incl (records t) (migrationNames entries) /\
    ((forall n, In n (migrationNames entries) -> hasName n (ledger w) = true) ->
     ledger (snd (runMigrations env d w)) = ledger w /\
     exists t', t = (Exec MainDB createMigrations [],
                     fault env (ledger w) (trace w) (Exec MainDB createMigrations []))
                    :: t' /\ noExec t').
Proof.
  intros Hd Hf Hr. unfold runMigrations. rewrite Hd.
  rewrite bind_run. unfold sqlExec. rewrite wrap_invoke.
  destruct (fault env (ledger w) (trace w) (Exec MainDB createMigrations [])) as [e|].
  { eexists. split; [reflexivity|]. simpl.
    split; [now exists (migrationNames entries)|].
    split; [intros HR; discriminate HR|].
    split; [intros ? []|]. split; [intros ? []|].
    intros _. split; [reflexivity|]. exists []. split; [reflexivity | constructor]. }
  simpl effect. rewrite bind_run, Hf, wrap_ReadDirFS, Hr.
  rewrite logged_logged. simpl ledger. simpl app.
  destruct (migrate_facts env d Hd (migrationNames entries)
              (logged w (ledger w)
                 [(Exec MainDB createMigrations [], None);
                  (ReadDir (migrationsDir d), None)]))
    as (t & Hw & Hp & Hok & Hrd & Hrc & _ & Hsk & _).
  simpl ledger in *.
  exists ([(Exec MainDB createMigrations [], None);
           (ReadDir (migrationsDir d), None)] ++ t)%list.
  rewrite lookups_app, reads_app, records_app. simpl lookups. simpl reads. simpl records.
  simpl app.
  split; [rewrite Hw at 1; rewrite logged_logged; reflexivity|].
  split; [exact Hp|]. split; [exact Hok|]. split; [exact Hrd|]. split; [exact Hrc|].
  intros Hall. destruct (Hsk Hall) as [E N]. split; [exact E|].
  eexists. split; [reflexivity|]. constructor; [reflexivity | exact N].
Qed.


Lemma logged_trace (w : World) (l : list string) (t : list event) :
  trace (logged w l t) = (trace w ++ t)%list.
Proof. reflexivity. Qed.

Lemma runMigrations_Ok (d : DB) (w w1 : World) :
  runMigrations env d w = (Ok tt, w1) ->
  exists f entries, migrationsFS d = Some f /\
                    fsReadDir f (migrationsDir d) = inr entries.
Proof.
  unfold runMigrations. rewrite bind_run. unfold sqlExec. rewrite wrap_invoke.
  destruct (fault env (ledger w) (trace w) (Exec (db d) createMigrations [])) as [e|];
    [discriminate|].
  rewrite bind_run.
  destruct (migrationsFS d) as [f|] eqn:Hf; [|discriminate].
  rewrite wrap_ReadDirFS.
  destruct (fsReadDir f (migrationsDir d)) as [e|entries] eqn:Hr; [discriminate|].
  intros _. now exists f, entries.
Qed.

End RunnerFacts.

(** The statement loop of the runner comes to an end within the bound it
    is given, the length of the trimmed script: it never runs out of the
    bound, and it never panics. *)
Theorem statements_total (env : Env) (d : DB) (migration sql delim : string)
      (fuel : nat) (w : World) :
  db d = MainDB ->
  (String.length sql <= fuel)%nat ->
  fst (statements env d fuel migration sql delim w) <> OutOfFuel /\
  fst (statements env d fuel migration sql delim w) <> Panic.
Proof.
  intros Hd L.
  pose proof (statements_run env d migration fuel Hd sql delim w L) as H.
  apply statementsEnd_trace in H as (_ & _ & _ & _ & _ & H1 & H2). now split.
Qed.

Lemma statements_total_witness :
  db sampleDB = MainDB /\
  (String.length "SELECT 1; SELECT 2" <= 18)%nat /\
  fst (statements sampleEnv sampleDB 18 "m.sql" "SELECT 1; SELECT 2" ";" emptyWorld)
    <> OutOfFuel.
Proof.
  split; [reflexivity|]. split; [simpl; lia|].
  exact (proj1 (statements_total sampleEnv sampleDB "m.sql" "SELECT 1; SELECT 2" ";"
                  18 emptyWorld eq_refl (Nat.le_refl _))).
Defined.


(** C7. The runner keeps exactly the entries of the listing that are no
    directories and whose extension, lower-cased, is [.sql]; it goes
    through their names in ascending byte-wise order, whatever order the
    listing came in; and every file it reads and every name it records is
    one of them. *)
Theorem C7_migration_files (env : Env) (d : DB) (f : FS)
        (entries : list DirEntry) (w : World) (r : result unit) (w' : World) :
  db d = MainDB ->
  migrationsFS d = Some f ->
  fsReadDir f (migrationsDir d) = inr entries ->
  runMigrations env d w = (r, w') ->
  (forall n, In n (migrationNames entries) <->
             exists e, In e entries /\ Name e = n /\ IsDir e = false /\
                       ToLower (Ext (Name e)) = ".sql") /\
  StronglySorted le (migrationNames entries) /\
  (forall entries', Permutation entries entries' ->
                    migrationNames entries' = migrationNames entries) /\
  exists t,
    trace w' = (trace w ++ t)%list /\
    (exists later, migrationNames entries = (lookups t ++ later)%list) /\
    (r = Ok tt -> lookups t = migrationNames entries) /\
    incl (reads t) (map (pathJoin env (migrationsDir d)) (migrationNames entries)) /\
    incl (records t) (migrationNames entries).
Proof.
  intros Hd Hf Hr Hrun.
  split; [apply migrationNames_In|].
  split; [apply sortStrings_sorted|].
  split; [intros entries'; apply migrationNames_perm|].
  destruct (runMigrations_facts env d f entries w Hd Hf Hr)
    as (t & Hw & Hp & Hok & Hrd & Hrc & _).
  rewrite Hrun in *. simpl in *.
  exists t. split; [rewrite Hw; reflexivity|].
  split; [exact Hp|]. split; [|split; [exact Hrd | exact Hrc]].
  intros ->. now apply Hok.
Qed.

Lemma C7_migration_files_witness :
  db sampleDB = MainDB /\
  migrationsFS sampleDB = Some sampleFS /\
  fsReadDir sampleFS (migrationsDir sampleDB) = inr sampleEntries /\
  migrationNames sampleEntries = ["01_y.SQL"; "02_x.sql"] /\
  exists t, trace (snd (runMigrations sampleEnv sampleDB emptyWorld)) = t /\
            lookups t = ["01_y.SQL"; "02_x.sql"] /\
            incl (reads t) ["migrations/01_y.SQL"; "migrations/02_x.sql"].
Proof.
  split; [reflexivity|]. split; [reflexivity|]. split; [reflexivity|].
  split; [reflexivity|].
  destruct (C7_migration_files sampleEnv sampleDB sampleFS sampleEntries emptyWorld
              (fst (runMigrations sampleEnv sampleDB emptyWorld))
              (snd (runMigrations sampleEnv sampleDB emptyWorld))
              eq_refl eq_refl eq_refl (surjective_pairing _))
    as (_ & _ & _ & t & Ht & _ & Hok & Hrd & _).
  exists t. split; [exact Ht|]. split; [|exact Hrd].
  apply Hok. vm_compute. reflexivity.
Defined.



Section LifeCycle.

Variable env : Env.

Lemma catch_run {A B : Type} (m : M A) (h : error -> M B) (k : A -> M B) (w : World) :
  catch m h k w =
    match m w with
    | (Ok a, w') => k a w'
    | (Fail e, w') => h e w'
    | (Panic, w') => (Panic, w')
    | (OutOfFuel, w') => (OutOfFuel, w')
    end.
Proof. reflexivity. Qed.

(** The two administrative helpers open their own connection first, talk
    to nothing else, close it, and return normally. *)
Lemma dropExistingDatabaseIfExist_run (dsn dbName : string) (w : World) :
  exists e t,
    snd (dropExistingDatabaseIfExist env dsn dbName w)
      = logged w (ledger w) ((Open AdminDB dsn, e) :: t) /\
    adminOnly t /\
    (fst (dropExistingDatabaseIfExist env dsn dbName w) = Ok tt \/
     exists err, fst (dropExistingDatabaseIfExist env dsn dbName w) = Fail err).
Proof.
  unfold dropExistingDatabaseIfExist, bind, wrap, catch, defer, sqlOpen, sqlPing,
    sqlExec, sqlClose, invoke, bind, ret, fail, logged. simpl.
  repeat match goal with
         | |- context [fault env ?l ?t ?c] => destruct (fault env l t c); simpl
         end;
    (eexists; eexists; split; [rewrite <- ?app_assoc; reflexivity|];
     split; [repeat constructor | eauto]).
Qed.

(** When its connection opens and answers the ping, the helper sends the
    drop statement. *)
Lemma dropExistingDatabaseIfExist_issues (dsn dbName : string) (w : World) :
  fault env (ledger w) (trace w) (Open AdminDB dsn) = None ->
  fault env (ledger w) (trace w ++ [(Open AdminDB dsn, None)]) (Ping AdminDB) = None ->
  exists e e',
    trace (snd (dropExistingDatabaseIfExist env dsn dbName w)) =
      (trace w ++ [(Open AdminDB dsn, None); (Ping AdminDB, None);
                   (Exec AdminDB ("DROP DATABASE IF EXISTS " ++ dbName ++ ";") [], e);
                   (Close AdminDB, e')])%list.
Proof.
  intros Ho Hp.
  unfold dropExistingDatabaseIfExist, bind, wrap, catch, defer, sqlOpen, sqlPing,
    sqlExec, sqlClose, invoke, bind, ret, fail. simpl.
  rewrite Ho. simpl. rewrite Hp. simpl.
  repeat match goal with
         | |- context [fault env ?l ?t ?c] => destruct (fault env l t c); simpl
         end;
    (eexists; eexists; rewrite <- ?app_assoc; reflexivity).
Qed.
Lemma createDatabaseIfNotExist_run (dsn dbName : string) (w : World) :
  exists e t,
    snd (createDatabaseIfNotExist env dsn dbName w)
      = logged w (ledger w) ((Open AdminDB dsn, e) :: t) /\
    adminOnly t /\
    (fst (createDatabaseIfNotExist env dsn dbName w) = Ok tt \/
     exists err, fst (createDatabaseIfNotExist env dsn dbName w) = Fail err).
Proof.
  unfold createDatabaseIfNotExist, bind, wrap, catch, defer, sqlOpen, sqlPing,
    sqlExec, sqlClose, invoke, bind, ret, fail, logged. simpl.
  repeat match goal with
         | |- context [fault env ?l ?t ?c] => destruct (fault env l t c); simpl
         end;
    (eexists; eexists; split; [rewrite <- ?app_assoc; reflexivity|];
     split; [repeat constructor | eauto]).
Qed.

Lemma fold_stock (options : list Option) :
  Forall stock options ->
  forall d,
    db (fold_left (fun d (o : Option) => o d) options d) = db d /\
    name (fold_left (fun d (o : Option) => o d) options d) = name d /\
    dsn (fold_left (fun d (o : Option) => o d) options d) = dsn d.
Proof.
  induction 1 as [|o options Ho _ IH]; intros d; simpl; auto.
  destruct (IH (o d)) as (E1 & E2 & E3). rewrite E1, E2, E3.
  destruct Ho; auto.
Qed.

Lemma configure_stock (cfg : Config) (dsn0 : string) (options : list Option) :
  Forall stock options ->
  db (configure cfg dsn0 options) = MainDB /\
  name (configure cfg dsn0 options) = DBName cfg /\
  dsn (configure cfg dsn0 options) = dsn0.
Proof. intros H. apply (fold_stock options H). Qed.

(** The handle [NewDB] returns is the configured one, on the main
    connection. *)
Lemma NewDB_Some (dsn0 : string) (options : list Option) (w w1 : World)
      (d : DB) (oe : option error) :
  NewDB env dsn0 options w = (Ok (Some d, oe), w1) ->
  exists cfg, ParseDSN env dsn0 = inr cfg /\
              d = setHandle (configure cfg dsn0 options) MainDB.
Proof.
  unfold NewDB. destruct (ParseDSN env dsn0) as [err|cfg]; [discriminate|].
  intros H. exists cfg. split; [reflexivity|]. revert H.
  rewrite catch_run.
  destruct ((if dropExisting (configure cfg dsn0 options)
             then dropExistingDatabaseIfExist env (FormatDSN env (withDBName cfg ""))
                    (name (configure cfg dsn0 options))
             else ret tt) w) as [[[]|e| |] wa]; try discriminate.
  rewrite catch_run.
  destruct ((if autoCreate (configure cfg dsn0 options)
             then createDatabaseIfNotExist env (FormatDSN env (withDBName cfg ""))
                    (name (configure cfg dsn0 options))
             else ret tt) wa) as [[[]|e| |] wb]; try discriminate.
  rewrite catch_run.
  destruct (sqlOpen env MainDB dsn0 wb) as [[h|e| |] wc] eqn:Eo; try discriminate.
  assert (h = MainDB) as ->.
  { unfold sqlOpen, bind, invoke, ret in Eo.
    destruct (fault env (ledger wb) (trace wb) (Open MainDB dsn0)); congruence. }
  rewrite catch_run.
  destruct (sqlPing env _ wc) as [[[]|e| |] wd]; try discriminate.
  { rewrite catch_run.
    destruct ((if negb (migrationsDir (setHandle (configure cfg dsn0 options) MainDB)
                        =? "")%string
               then runMigrations env (setHandle (configure cfg dsn0 options) MainDB)
               else ret tt) wd)
      as [[[]|e| |] we]; try discriminate.
    - intros [= <- _ _]. reflexivity.
    - unfold bind, ignore. rewrite catch_run.
      destruct (sqlClose env _ we) as [[[]|?| |] ?]; discriminate. }
  unfold bind, ignore. rewrite catch_run.
  destruct (sqlClose env _ wd) as [[[]|?| |] ?]; discriminate.
Qed.

End LifeCycle.

(** C9. For a [DB] that [NewDB] returned (built with the options [db.go]
    offers), [Close] closes the main connection first. If that fails, the
    failure is returned and no other call is made: the drop is skipped.
    With drop-on-close unset no other call is made either. With
    drop-on-close set and the main close successful, the administrative
    drop of the target database is run, on the connection string without a
    database name, and its outcome is the outcome of [Close]; so the drop
    statement is issued only when drop-on-close is set and the main close
    succeeded. *)
Theorem C9_drop_on_close (env : Env) (dsn0 : string) (options : list Option)
        (w0 w1 : World) (d : DB) (w : World) (r : result unit) (w' : World) :
  Forall stock options ->
  NewDB env dsn0 options w0 = (Ok (Some d, None), w1) ->
  DB_Close env d w = (r, w') ->
  exists cfg t,
    ParseDSN env dsn0 = inr cfg /\
    trace w' = (trace w ++ (Close MainDB, fault env (ledger w) (trace w) (Close MainDB))
                           :: t)%list /\
    (forall e, fault env (ledger w) (trace w) (Close MainDB) = Some e ->
               r = Fail (Wrap "closing database" e) /\ t = []) /\
    (dropOnClose d = false -> t = []) /\
    (dropOnClose d = true ->
     fault env (ledger w) (trace w) (Close MainDB) = None ->
     (r, w') = dropExistingDatabaseIfExist env (FormatDSN env (withDBName cfg ""))
                 (DBName cfg) (logged w (ledger w) [(Close MainDB, None)]) /\
     exists e t', t = (Open AdminDB (FormatDSN env (withDBName cfg "")), e) :: t') /\
    (dropOnClose d = true ->
     fault env (ledger w) (trace w) (Close MainDB) = None ->
     fault env (ledger w) (trace w ++ [(Close MainDB, None)])
       (Open AdminDB (FormatDSN env (withDBName cfg ""))) = None ->
     fault env (ledger w)
       ((trace w ++ [(Close MainDB, None)])
        ++ [(Open AdminDB (FormatDSN env (withDBName cfg "")), None)])
       (Ping AdminDB) = None ->
     exists e, In (Exec AdminDB ("DROP DATABASE IF EXISTS " ++ DBName cfg ++ ";") [], e) t) /\
    (forall e, In (Exec AdminDB ("DROP DATABASE IF EXISTS " ++ DBName cfg ++ ";") [], e) t ->
               dropOnClose d = true /\
               fault env (ledger w) (trace w) (Close MainDB) = None).
Proof.
  intros Hs Hnew Hclose.
  destruct (NewDB_Some env dsn0 options w0 w1 d None Hnew) as (cfg & Hp & ->).
  destruct (configure_stock cfg dsn0 options Hs) as (_ & Hname & Hdsn).
  exists cfg. revert Hclose. unfold DB_Close.
  simpl db. simpl dropOnClose. simpl dsn. simpl name. rewrite Hdsn, Hname, Hp.
  rewrite bind_run. unfold sqlClose. rewrite wrap_invoke.
  destruct (fault env (ledger w) (trace w) (Close MainDB)) as [e|] eqn:F.
  { intros [= <- <-]. exists []. split; [reflexivity|]. split; [reflexivity|].
    split; [intros e' [= <-]; auto|]. split; [reflexivity|].
    split; [discriminate|]. split; [discriminate|]. intros ? []. }
  simpl effect.
  destruct (dropOnClose (configure cfg dsn0 options)) eqn:Hd; unfold negb; cbv iota.
  - intros Hrun.
    destruct (dropExistingDatabaseIfExist_run env (FormatDSN env (withDBName cfg ""))
                (DBName cfg) (logged w (ledger w) [(Close MainDB, None)]))
      as (e & t' & Hw & _ & _).
    rewrite Hrun in Hw. simpl in Hw.
    exists ((Open AdminDB (FormatDSN env (withDBName cfg "")), e) :: t').
    split; [reflexivity|].
    split; [rewrite Hw; simpl; rewrite <- app_assoc; reflexivity|].
    split; [discriminate|]. split; [discriminate|].
    split; [intros _ _; split; [now rewrite Hrun | now exists e, t']|].
    split; [|auto].
    intros _ _ Ho Hg.
    destruct (dropExistingDatabaseIfExist_issues env
                (FormatDSN env (withDBName cfg "")) (DBName cfg)
                (logged w (ledger w) [(Close MainDB, None)]) Ho Hg)
      as (e1 & e2 & Ht).
    rewrite Hrun, Hw in Ht. simpl in Ht.
    rewrite <- !app_assoc in Ht. apply app_inv_head in Ht.
    injection Ht as _ ->. exists e1. simpl. auto.
  - intros [= <- <-]. exists []. split; [reflexivity|]. split; [reflexivity|].
    split; [discriminate|]. split; [reflexivity|].
    split; [discriminate|]. split; [discriminate|]. intros ? [].
Qed.

Lemma C9_drop_on_close_witness :
  Forall stock sampleOptions /\
  NewDB sampleEnv "/app" sampleOptions emptyWorld
    = (Ok (Some sampleDB, None), snd (NewDB sampleEnv "/app" sampleOptions emptyWorld)) /\
  exists t,
    trace (snd (DB_Close sampleEnv sampleDB emptyWorld)) = (Close MainDB, None) :: t /\
    exists e, In (Exec AdminDB "DROP DATABASE IF EXISTS app;" [], e) t.
Proof.
  assert (S : Forall stock sampleOptions) by (repeat constructor).
  assert (N : NewDB sampleEnv "/app" sampleOptions emptyWorld
              = (Ok (Some sampleDB, None),
                 snd (NewDB sampleEnv "/app" sampleOptions emptyWorld)))
    by (vm_compute; reflexivity).
  split; [exact S|]. split; [exact N|].
  destruct (C9_drop_on_close sampleEnv "/app" sampleOptions emptyWorld _ sampleDB
              emptyWorld _ _ S N (surjective_pairing _))
    as (cfg & t & Hp & Ht & _ & _ & _ & Hi & _).
  injection Hp as <-.
  exists t. split; [exact Ht|].
  apply Hi; reflexivity.
Defined.

Section NewDBFacts.

Variable env : Env.

Lemma invoke_run (c : call) (w : World) :
  invoke env c w =
    match fault env (ledger w) (trace w) c with
    | None => (Ok tt, logged w (effect c (ledger w)) [(c, None)])
    | Some e => (Fail e, logged w (ledger w) [(c, Some e)])
    end.
Proof.
  unfold invoke, logged. destruct (fault env (ledger w) (trace w) c); reflexivity.
Qed.

Lemma sqlOpen_run (h : handle) (dsn0 : string) (w : World) :
  sqlOpen env h dsn0 w =
    match fault env (ledger w) (trace w) (Open h dsn0) with
    | None => (Ok h, logged w (ledger w) [(Open h dsn0, None)])
    | Some e => (Fail e, logged w (ledger w) [(Open h dsn0, Some e)])
    end.
Proof.
  unfold sqlOpen. rewrite bind_run, invoke_run.
  destruct (fault env (ledger w) (trace w) (Open h dsn0)); reflexivity.
Qed.

Lemma ignore_close {A : Type} (h : handle) (x : A) (w : World) :
  (ignore (sqlClose env h) ;;; ret x) w =
    (Ok x, logged w (ledger w) [(Close h, fault env (ledger w) (trace w) (Close h))]).
Proof.
  rewrite bind_run. unfold ignore. rewrite catch_run. unfold sqlClose.
  rewrite invoke_run.
  destruct (fault env (ledger w) (trace w) (Close h)); reflexivity.
Qed.

Lemma adminOnly_no_work (t : list event) :
  adminOnly t -> Forall (fun ev => migrationWork (fst ev) = false) t.
Proof.
  apply Forall_impl. intros [c e]. simpl.
  destruct c as [[]| []| []| [] | [] | [] | |]; simpl; congruence.
Qed.

Lemma adminOnly_not_In (t : list event) (c : call) (e : option error) :
  adminOnly t -> onAdmin c = false -> ~ In (c, e) t.
Proof.
  intros H Hc Hin. unfold adminOnly in H. rewrite Forall_forall in H.
  apply H in Hin. simpl in Hin. congruence.
Qed.

Lemma onlyWork_not_In (t : list event) (c : call) (e : option error) :
  onlyWork t -> migrationWork c = false -> ~ In (c, e) t.
Proof.
  intros H Hc Hin. unfold onlyWork in H. rewrite Forall_forall in H.
  apply H in Hin. simpl in Hin. congruence.
Qed.

(** An administrative helper that runs only when its option is set. *)
Lemma optional_admin (b : bool) (m : M unit) (w : World) :
  (exists e t, snd (m w) = logged w (ledger w) (e :: t) /\ adminOnly (e :: t) /\
               (fst (m w) = Ok tt \/ exists err, fst (m w) = Fail err)) ->
  exists t, snd ((if b then m else ret tt) w) = logged w (ledger w) t /\
            adminOnly t /\
            (fst ((if b then m else ret tt) w) = Ok tt \/
             exists err, fst ((if b then m else ret tt) w) = Fail err).
Proof.
  intros (e & t & H1 & H2 & H3). destruct b.
  - exists (e :: t). auto.
  - exists []. simpl. rewrite logged_nil. repeat split; auto. constructor.
Qed.

Lemma migrate_Panic (d : DB) :
  db d = MainDB ->
  forall names w, fst (migrate env d names w) = Panic -> migrationsFS d = None.
Proof.
  intros Hd. induction names as [|m later IH]; intros w; [discriminate|].
  change (migrate env d (m :: later))
    with (applyMigration env d m ;;; migrate env d later).
  rewrite bind_run.
  pose proof (applyMigration_run env d m w Hd) as Ha.
  destruct (applyMigration env d m w) as [r1 w1]. simpl in Ha.
  destruct r1 as [[]|e| |]; try discriminate.
  - apply IH.
  - intros _. inversion Ha; assumption.
Qed.

Lemma runMigrations_Panic (d : DB) (w : World) :
  db d = MainDB ->
  fst (runMigrations env d w) = Panic -> migrationsFS d = None.
Proof.
  intros Hd. unfold runMigrations. rewrite bind_run. unfold sqlExec.
  rewrite wrap_invoke.
  destruct (fault env (ledger w) (trace w) (Exec (db d) createMigrations [])) as [e|];
    [discriminate|].
  rewrite bind_run.
  destruct (migrationsFS d) as [f|] eqn:Hf; [|reflexivity].
  rewrite wrap_ReadDirFS.
  destruct (fsReadDir f (migrationsDir d)) as [e|entries]; [discriminate|].
  intros H. apply migrate_Panic in H; [congruence | assumption].
Qed.

End NewDBFacts.

Ltac cases_In :=
  repeat match goal with
         | H : _ \/ _ |- _ => destruct H
         | H : In _ (_ ++ _) |- _ => apply in_app_or in H
         | H : In _ (_ :: _) |- _ => destruct H
         | H : In _ [] |- _ => destruct H
         | H : (_, _) = (_, _) |- _ => discriminate H
         end.

(** C10. [NewDB] returns either a handle and no error, or no handle and an
    error, never both and never neither. When the main connection was
    opened and [NewDB] returns an error (the ping or the migrations
    failed), closing that connection is the last thing it does. A returned
    handle was opened and is not closed. With an empty migrations
    directory no call of the migration runner is made. The only other way
    out is the panic of a nil file system given with a directory. *)
Theorem C10_NewDB_outcome (env : Env) (dsn0 : string) (options : list Option)
        (w : World) :
  exists t,
    trace (snd (NewDB env dsn0 options w)) = (trace w ++ t)%list /\
    match fst (NewDB env dsn0 options w) with
    | Ok (Some d, None) =>
        In (Open MainDB dsn0, None) t /\ (forall e, ~ In (Close MainDB, e) t)
    | Ok (None, Some err) =>
        In (Open MainDB dsn0, None) t ->
        exists t0 e, t = (t0 ++ [(Close MainDB, e)])%list
    | Ok (Some _, Some _) | Ok (None, None) | Fail _ | OutOfFuel => False
    | Panic =>
        exists cfg, ParseDSN env dsn0 = inr cfg /\
                    migrationsFS (configure cfg dsn0 options) = None /\
                    migrationsDir (configure cfg dsn0 options) <> EmptyString
    end /\
    (forall cfg, ParseDSN env dsn0 = inr cfg ->
                 migrationsDir (configure cfg dsn0 options) = EmptyString ->
                 Forall (fun ev => migrationWork (fst ev) = false) t).
Proof.
  unfold NewDB. destruct (ParseDSN env dsn0) as [err|cfg] eqn:Hp.
  { exists []. simpl. rewrite app_nil_r. repeat split; auto. intros []. }
  set (d := configure cfg dsn0 options).
  (* drop-existing *)
  rewrite catch_run.
  destruct (optional_admin (dropExisting d)
              (dropExistingDatabaseIfExist env (FormatDSN env (withDBName cfg "")) (name d))
              w) as (t1 & Hw1 & Ha1 & Hr1).
  { destruct (dropExistingDatabaseIfExist_run env
                (FormatDSN env (withDBName cfg "")) (name d) w)
      as (e & t & H1 & H2 & H3).
    exists (Open AdminDB (FormatDSN env (withDBName cfg "")), e), t.
    split; [exact H1|]. split; [constructor; [reflexivity | exact H2] | exact H3]. }
  destruct ((if dropExisting d then _ else ret tt) w) as [r1 wa].
  simpl in Hw1, Hr1. subst wa.
  destruct Hr1 as [->|[err ->]].
  2:{ exists t1. simpl. split; [reflexivity|]. split.
      - intros Hin. now apply adminOnly_not_In in Hin.
      - intros _ _ _. now apply adminOnly_no_work. }
  (* auto-create *)
  rewrite catch_run.
  destruct (optional_admin (autoCreate d)
              (createDatabaseIfNotExist env (FormatDSN env (withDBName cfg "")) (name d))
              (logged w (ledger w) t1)) as (t2 & Hw2 & Ha2 & Hr2).
  { destruct (createDatabaseIfNotExist_run env
                (FormatDSN env (withDBName cfg "")) (name d) (logged w (ledger w) t1))
      as (e & t & H1 & H2 & H3).
    exists (Open AdminDB (FormatDSN env (withDBName cfg "")), e), t.
    split; [exact H1|]. split; [constructor; [reflexivity | exact H2] | exact H3]. }
  destruct ((if autoCreate d then _ else ret tt) (logged w (ledger w) t1)) as [r2 wb].
  simpl in Hw2, Hr2. subst wb. rewrite logged_logged. simpl ledger.
  assert (Ha : adminOnly (t1 ++ t2)) by (apply Forall_app; now split).
  clear Ha1 Ha2. set (ta := (t1 ++ t2)%list) in *. clearbody ta. clear t1 t2.
  destruct Hr2 as [->|[err ->]].
  2:{ exists ta. simpl. split; [reflexivity|]. split.
      - intros Hin. now apply adminOnly_not_In in Hin.
      - intros _ _ _. now apply adminOnly_no_work. }
  (* sql.Open *)
  rewrite catch_run, sqlOpen_run.
  destruct (fault env _ _ (Open MainDB dsn0)) as [e|].
  { rewrite logged_logged. exists (ta ++ [(Open MainDB dsn0, Some e)])%list.
    simpl. split; [reflexivity|]. split.
    - intros Hin. cases_In. now apply adminOnly_not_In in H.
    - intros _ _ _. repeat (apply Forall_app; split);
        try (now apply adminOnly_no_work); repeat constructor. }
  rewrite logged_logged. simpl ledger.
  (* Ping *)
  rewrite catch_run. simpl db. unfold sqlPing. rewrite invoke_run.
  destruct (fault env _ _ (Ping MainDB)) as [e|].
  { rewrite ignore_close, !logged_logged.
    eexists. simpl. split; [reflexivity|]. split.
    - intros _. eexists. eexists. apply (app_assoc _ [_] [_]).
    - intros _ _ _. repeat (apply Forall_app; split);
        try (now apply adminOnly_no_work); repeat constructor. }
  simpl effect. rewrite logged_logged. simpl ledger.
  (* migrations *)
  rewrite catch_run.
  destruct (migrationsDir (setHandle d MainDB) =? "")%string eqn:Hdir;
    change (migrationsDir (setHandle d MainDB)) with (migrationsDir d) in Hdir;
    unfold negb; cbv iota.
  { eexists. simpl. split; [reflexivity|]. split.
    - split.
      + rewrite !in_app_iff. simpl. auto.
      + intros e Hin. cases_In. now apply adminOnly_not_In in H.
    - intros _ _ _. repeat (apply Forall_app; split);
        try (now apply adminOnly_no_work); repeat constructor. }
  apply String.eqb_neq in Hdir.
  destruct (runMigrations_work env (setHandle d MainDB)
              (logged w (ledger w)
                 ((ta ++ [(Open MainDB dsn0, None)]) ++ [(Ping MainDB, None)]))
              eq_refl) as (tm & Hwm & Htm & Hfm).
  pose proof (runMigrations_Panic env (setHandle d MainDB)
                (logged w (ledger w)
                   ((ta ++ [(Open MainDB dsn0, None)]) ++ [(Ping MainDB, None)]))
                eq_refl) as Hpm.
  destruct (runMigrations env (setHandle d MainDB)
              (logged w (ledger w)
                 ((ta ++ [(Open MainDB dsn0, None)]) ++ [(Ping MainDB, None)])))
    as [[[]|e| |] wm]; simpl in Hwm, Hfm, Hpm.
  - rewrite Hwm, logged_logged. eexists. simpl. split; [reflexivity|]. split.
    + split.
      * rewrite !in_app_iff. simpl. auto.
      * intros e Hin. cases_In.
        -- now apply adminOnly_not_In in H.
        -- now apply onlyWork_not_In in H.
    + intros cfg' [= <-] Hd'. fold d in Hd'. congruence.
  - rewrite ignore_close, Hwm, !logged_logged. eexists. simpl.
    split; [reflexivity|]. split.
    + intros _. eexists. eexists. apply app_assoc.
    + intros cfg' [= <-] Hd'. fold d in Hd'. congruence.
  - rewrite Hwm, logged_logged. eexists. simpl. split; [reflexivity|]. split.
    + exists cfg. repeat split; auto.
    + intros cfg' [= <-] Hd'. fold d in Hd'. congruence.
  - congruence.
Qed.

(** * Dropping before creating *)

Section Order.
Variable env : Env.

(** A helper that returns without error has opened its connection, pinged
    it, executed its statement and closed the connection, in this order. *)
Lemma dropExistingDatabaseIfExist_Ok (dsn dbName : string) (w w' : World) :
  dropExistingDatabaseIfExist env dsn dbName w = (Ok tt, w') ->
  exists e,
    w' = logged w (ledger w)
           [(Open AdminDB dsn, None); (Ping AdminDB, None);
            (Exec AdminDB ("DROP DATABASE IF EXISTS " ++ dbName ++ ";") [], None);
            (Close AdminDB, e)].
Proof.
  unfold dropExistingDatabaseIfExist, bind, wrap, catch, defer, sqlOpen, sqlPing,
    sqlExec, sqlClose, invoke, bind, ret, fail, logged. simpl.
  repeat match goal with
         | |- context [fault env ?l ?t ?c] => destruct (fault env l t c); simpl
         end;
    intros H; try discriminate H;
    injection H as <-; eexists; rewrite <- ?app_assoc; reflexivity.
Qed.

Lemma createDatabaseIfNotExist_Ok (dsn dbName : string) (w w' : World) :
  createDatabaseIfNotExist env dsn dbName w = (Ok tt, w') ->
  exists e,
    w' = logged w (ledger w)
           [(Open AdminDB dsn, None); (Ping AdminDB, None);
            (Exec AdminDB ("CREATE DATABASE IF NOT EXISTS " ++ dbName ++ ";") [], None);
            (Close AdminDB, e)].
Proof.
  unfold createDatabaseIfNotExist, bind, wrap, catch, defer, sqlOpen, sqlPing,
    sqlExec, sqlClose, invoke, bind, ret, fail, logged. simpl.
  repeat match goal with
         | |- context [fault env ?l ?t ?c] => destruct (fault env l t c); simpl
         end;
    intros H; try discriminate H;
    injection H as <-; eexists; rewrite <- ?app_assoc; reflexivity.
Qed.

End Order.

(** With drop-existing and auto-create both set, a [NewDB] that returns a
    handle has dropped the database first, created it next, each on an
    administrative connection of its own opened without a database name,
    and only then opened and pinged the main connection. *)
Theorem NewDB_drops_before_creating (env : Env) (dsn0 : string)
        (options : list Option) (cfg : Config) (w : World) (d : DB) (w' : World) :
  ParseDSN env dsn0 = inr cfg ->
  dropExisting (configure cfg dsn0 options) = true ->
  autoCreate (configure cfg dsn0 options) = true ->
  NewDB env dsn0 options w = (Ok (Some d, None), w') ->
  exists e1 e2 t,
    trace w' =
      (trace w ++
       [(Open AdminDB (FormatDSN env (withDBName cfg "")), None);
        (Ping AdminDB, None);
        (Exec AdminDB ("DROP DATABASE IF EXISTS "
                       ++ name (configure cfg dsn0 options) ++ ";") [], None);
        (Close AdminDB, e1);
        (Open AdminDB (FormatDSN env (withDBName cfg "")), None);
        (Ping AdminDB, None);
        (Exec AdminDB ("CREATE DATABASE IF NOT EXISTS "
                       ++ name (configure cfg dsn0 options) ++ ";") [], None);
        (Close AdminDB, e2);
        (Open MainDB dsn0, None);
        (Ping MainDB, None)] ++ t)%list.
Proof.
  intros Hp Hdrop Hcreate. unfold NewDB. rewrite Hp, Hdrop, Hcreate.
  set (c := configure cfg dsn0 options).
  rewrite catch_run.
  destruct (dropExistingDatabaseIfExist env (FormatDSN env (withDBName cfg "")) (name c) w)
    as [[[]|e| |] wa] eqn:Ea; try discriminate.
  apply dropExistingDatabaseIfExist_Ok in Ea as (e1 & ->).
  rewrite catch_run.
  destruct (createDatabaseIfNotExist env (FormatDSN env (withDBName cfg "")) (name c) _)
    as [[[]|e| |] wb] eqn:Eb; try discriminate.
  apply createDatabaseIfNotExist_Ok in Eb as (e2 & ->).
  rewrite logged_logged. simpl ledger.
  rewrite catch_run, sqlOpen_run.
  destruct (fault env _ _ (Open MainDB dsn0)); [discriminate|].
  rewrite logged_logged. simpl ledger.
  rewrite catch_run. simpl db. unfold sqlPing. rewrite invoke_run.
  destruct (fault env _ _ (Ping MainDB)).
  { rewrite ignore_close. discriminate. }
  simpl effect. rewrite logged_logged. simpl ledger.
  rewrite catch_run.
  destruct (migrationsDir (setHandle c MainDB) =? "")%string; unfold negb; cbv iota.
  { intros [= _ <-]. exists e1, e2, (@nil event). simpl. reflexivity. }
  match goal with
  | |- context [runMigrations env ?a ?b] =>
      destruct (runMigrations_work env a b eq_refl) as (tm & Hwm & _ & _);
      destruct (runMigrations env a b) as [[[]|e| |] wm]
  end; simpl in Hwm; try discriminate.
  - intros [= _ <-]. rewrite Hwm, logged_logged. exists e1, e2, tm.
    simpl. reflexivity.
  - rewrite ignore_close. discriminate.
Qed.

Lemma NewDB_drops_before_creating_witness :
  NewDB sampleEnv "/app" [DropExistingDB; AutoCreateDB] emptyWorld
    = (Ok (Some (setHandle (configure {| DBName := "app"; params := "/app" |} "/app"
                              [DropExistingDB; AutoCreateDB]) MainDB), None),
       snd (NewDB sampleEnv "/app" [DropExistingDB; AutoCreateDB] emptyWorld)) /\
  exists e1 e2 t,
    trace (snd (NewDB sampleEnv "/app" [DropExistingDB; AutoCreateDB] emptyWorld)) =
      ([(Open AdminDB "/", None); (Ping AdminDB, None);
        (Exec AdminDB "DROP DATABASE IF EXISTS app;" [], None); (Close AdminDB, e1);
        (Open AdminDB "/", None); (Ping AdminDB, None);
        (Exec AdminDB "CREATE DATABASE IF NOT EXISTS app;" [], None); (Close AdminDB, e2);
        (Open MainDB "/app", None); (Ping MainDB, None)] ++ t)%list.
Proof.
  assert (N : NewDB sampleEnv "/app" [DropExistingDB; AutoCreateDB] emptyWorld
              = (Ok (Some (setHandle (configure {| DBName := "app"; params := "/app" |}
                                        "/app" [DropExistingDB; AutoCreateDB]) MainDB),
                     None),
                 snd (NewDB sampleEnv "/app" [DropExistingDB; AutoCreateDB] emptyWorld)))
    by (vm_compute; reflexivity).
  split; [exact N|].
  exact (NewDB_drops_before_creating sampleEnv "/app" [DropExistingDB; AutoCreateDB]
           {| DBName := "app"; params := "/app" |} emptyWorld _ _
           eq_refl eq_refl eq_refl N).
Defined.

(** * The connection facade *)

Lemma slice_not_itself (args : list value) : [VSlice args] <> args.
Proof.
  intros H. assert (D : depth (VSlice args) = S (list_max (map depth args))) by reflexivity.
  rewrite <- H in D at 2. simpl in D. lia.
Qed.

(** C1 (the code differs). Each of the six facade operations hands the
    underlying connection one positional argument, the slice of all the
    parameters, and that is never the parameter list itself: called with
    parameters (a, b), the underlying call gets the single argument
    [[a, b]], so [a] is not bound to the first placeholder and [b] not to
    the second. *)
Theorem C1_parameters_arrive_as_one_slice (env : Env) (d : DB) (t : Tx)
        (query : string) (args : list value) (w : World) :
  map fst (trace (snd (DB_Exec env d query args w)))
    = (map fst (trace w) ++ [Exec (db d) query [VSlice args]])%list /\
  map fst (trace (snd (DB_Query env d query args w)))
    = (map fst (trace w) ++ [Query (db d) query [VSlice args]])%list /\
  map fst (trace (snd (DB_QueryRow env d query args w)))
    = (map fst (trace w) ++ [QueryRow (db d) query [VSlice args]])%list /\
  map fst (trace (snd (Tx_Exec env t query args w)))
    = (map fst (trace w) ++ [Exec (tx t) query [VSlice args]])%list /\
  map fst (trace (snd (Tx_Query env t query args w)))
    = (map fst (trace w) ++ [Query (tx t) query [VSlice args]])%list /\
  map fst (trace (snd (Tx_QueryRow env t query args w)))
    = (map fst (trace w) ++ [QueryRow (tx t) query [VSlice args]])%list /\
  [VSlice args] <> args.
Proof.
  unfold DB_Exec, DB_Query, DB_QueryRow, Tx_Exec, Tx_Query, Tx_QueryRow,
    sqlExec, sqlQuery, sqlQueryRow, invoke. simpl.
  rewrite !map_app. simpl.
  repeat split; auto. apply slice_not_itself.
Qed.

(** * The [Bool] column type *)

(** What [Value] hands to the driver, [Scan] reads back: scanning the value
    of [b] sets the receiver to [b], whatever it held. *)
Theorem Bool_Scan_Value (b0 b : bool) : Bool_Scan b0 (Bool_Value b) = inr b.
Proof. destruct b; reflexivity. Qed.

(** [Scan] fails exactly on a source that is not a byte slice. A byte slice
    other than the single byte 0 or 1 (an empty one, a longer one, the digit
    [1]) is accepted without an error and leaves the receiver as it was; so
    the receiver changes only when the source is the value of the new
    content. *)
Theorem Bool_Scan_edges (b : bool) (src : value) :
  ((exists e, Bool_Scan b src = inl e) <-> (forall tmp, src <> VBytes tmp)) /\
  (forall tmp, src = VBytes tmp -> tmp <> bit0 -> tmp <> bit1 -> Bool_Scan b src = inr b) /\
  (forall b', Bool_Scan b src = inr b' -> b' <> b -> src = Bool_Value b').
Proof.
  split; [|split].
  - split.
    + intros [e H] tmp ->. simpl in H.
      destruct (tmp =? bit0)%string; [discriminate|].
      destruct (tmp =? bit1)%string; discriminate.
    + intros H. destruct src; try (eexists; reflexivity).
      now destruct (H b0).
  - intros tmp -> H0 H1. simpl.
    apply String.eqb_neq in H0, H1. now rewrite H0, H1.
  - intros b' H Hb. destruct src; try discriminate. simpl in H.
    destruct (b0 =? bit0)%string eqn:E0.
    + apply String.eqb_eq in E0. injection H as <-. now subst.
    + destruct (b0 =? bit1)%string eqn:E1.
      * apply String.eqb_eq in E1. injection H as <-. now subst.
      * injection H as <-. congruence.
Qed.

(** * The options *)

Lemma fold_flags (options : list Option) :
  Forall stock options ->
  forall d,
    (autoCreate (fold_left (fun d (o : Option) => o d) options d) = true <->
     autoCreate d = true \/ In AutoCreateDB options) /\
    (dropExisting (fold_left (fun d (o : Option) => o d) options d) = true <->
     dropExisting d = true \/ In DropExistingDB options) /\
    (dropOnClose (fold_left (fun d (o : Option) => o d) options d) = true <->
     dropOnClose d = true \/ In DropDBOnClose options).
Proof.
  induction 1 as [|o options Ho _ IH]; intros d; simpl.
  - repeat split; tauto.
  - destruct (IH (o d)) as (E1 & E2 & E3). rewrite E1, E2, E3. clear E1 E2 E3 IH.
    destruct Ho; simpl; repeat split; intros H; try tauto.
    all: try (destruct H as [H|[H|H]]; auto; fail).
    all: try (destruct H as [H|[H|H]]; auto;
              apply (f_equal (fun o : Option => o d)) in H; 
              unfold AutoCreateDB, DropExistingDB, DropDBOnClose, WithMigrations in H;
              injection H; intros; subst; auto; fail).
Qed.

Lemma fold_no_migrations (options : list Option) :
  Forall stock options ->
  (forall fsys dir, ~ In (WithMigrations fsys dir) options) ->
  forall d,
    migrationsDir (fold_left (fun d (o : Option) => o d) options d) = migrationsDir d /\
    migrationsFS (fold_left (fun d (o : Option) => o d) options d) = migrationsFS d.
Proof.
  induction 1 as [|o options Ho _ IH]; intros Hn d; simpl; auto.
  destruct IH with (d := o d) as [E1 E2].
  { intros fsys dir Hin. apply (Hn fsys dir). now right. }
  rewrite E1, E2. destruct Ho; auto.
  exfalso. apply (Hn fsys dir). now left.
Qed.

(** The [DB] that [NewDB] configures: its name is the database name of the
    connection string and its connection string the one given; each of the
    three flags is set exactly when its option is among the options,
    wherever it stands; without [WithMigrations] the directory is empty and
    there is no file system; with it, the last one given decides both. *)
Theorem options_configure (cfg : Config) (dsn0 : string) (options : list Option) :
  Forall stock options ->
  name (configure cfg dsn0 options) = DBName cfg /\
  dsn (configure cfg dsn0 options) = dsn0 /\
  (autoCreate (configure cfg dsn0 options) = true <-> In AutoCreateDB options) /\
  (dropExisting (configure cfg dsn0 options) = true <-> In DropExistingDB options) /\
  (dropOnClose (configure cfg dsn0 options) = true <-> In DropDBOnClose options) /\
  ((forall fsys dir, ~ In (WithMigrations fsys dir) options) ->
   migrationsDir (configure cfg dsn0 options) = EmptyString /\
   migrationsFS (configure cfg dsn0 options) = None) /\
  (forall before fsys dir after,
      options = (before ++ WithMigrations fsys dir :: after)%list ->
      (forall fsys' dir', ~ In (WithMigrations fsys' dir') after) ->
      migrationsDir (configure cfg dsn0 options) = dir /\
      migrationsFS (configure cfg dsn0 options) = fsys).
Proof.
  intros Hs. unfold configure.
  destruct (fold_stock options Hs
              {| db := MainDB; name := DBName cfg; dsn := dsn0;
                 autoCreate := false; dropExisting := false;
                 migrationsDir := EmptyString; migrationsFS := None;
                 dropOnClose := false |}) as (_ & En & Ed).
  destruct (fold_flags options Hs
              {| db := MainDB; name := DBName cfg; dsn := dsn0;
                 autoCreate := false; dropExisting := false;
                 migrationsDir := EmptyString; migrationsFS := None;
                 dropOnClose := false |}) as (F1 & F2 & F3).
  simpl in *.
  split; [exact En|]. split; [exact Ed|].
  split; [rewrite F1; intuition congruence|].
  split; [rewrite F2; intuition congruence|].
  split; [rewrite F3; intuition congruence|].
  split.
  - intros Hn. now apply (fold_no_migrations options Hs Hn).
  - intros before fsys dir after -> Hn.
    rewrite fold_left_app. simpl.
    apply Forall_app in Hs as [_ Hs]. apply Forall_inv_tail in Hs.
    destruct (fold_no_migrations after Hs Hn
                (WithMigrations fsys dir
                   (fold_left (fun d (o : Option) => o d) before
                      {| db := MainDB; name := DBName cfg; dsn := dsn0;
                         autoCreate := false; dropExisting := false;
                         migrationsDir := EmptyString; migrationsFS := None;
                         dropOnClose := false |}))) as [E1 E2].
    now rewrite E1, E2.
Qed.

Lemma options_configure_witness :
  Forall stock sampleOptions /\
  dropOnClose (configure {| DBName := "app"; params := "/app" |} "/app" sampleOptions) = true /\
  autoCreate (configure {| DBName := "app"; params := "/app" |} "/app" sampleOptions) <> true /\
  migrationsDir (configure {| DBName := "app"; params := "/app" |} "/app" sampleOptions)
    = "migrations".
Proof.
  assert (S : Forall stock sampleOptions) by (repeat constructor).
  destruct (options_configure {| DBName := "app"; params := "/app" |} "/app" sampleOptions S)
    as (_ & _ & H1 & _ & H3 & _ & H5).
  split; [exact S|]. split; [|split].
  - apply H3. right. now left.
  - discriminate.
  - apply (H5 [] (Some sampleFS) "migrations" [DropDBOnClose] eq_refl).
    intros fsys' dir' [H|[]].
    apply (f_equal (fun o : Option =>
                      dropOnClose (o (configure {| DBName := "app"; params := "/app" |}
                                        "/app" [])))) in H.
    discriminate H.
Defined.

(** * Scripts under the default delimiter *)



Lemma take_drop (n : nat) (s : string) : take n s ++ drop n s = s.
Proof.
  revert s; induction n as [|n IH]; intros [|c s]; try reflexivity.
  rewrite take_S. simpl. now rewrite IH.
Qed.















(** * The empty delimiter *)









(** * A directive on the last line *)

(** When the directive token stands in front of the next delimiter (or there
    is no delimiter) and the remainder has no line feed, the loop stops
    without an error: the splitter returns no statement and ends well, and
    the statement loop of the runner returns without an error and without a
    call, the remainder being dropped. *)
Theorem directive_without_line_end (env : Env) (d : DB) (migration sql delim : string)
        (fuel : nat) (w : World) :
  0 <= Index sql "delimiter " ->
  Index sql delim = -1 \/ Index sql "delimiter " <= Index sql delim ->
  Index sql LF = -1 ->
  (String.length sql <= fuel)%nat ->
  loopBody sql delim = NoLineEnd /\
  splitAll sql delim = ([], Finished) /\
  statements env d fuel migration sql delim w = (Ok tt, w).
Proof.
  intros Hc Hi Hl L.
  assert (N : loopBody sql delim = NoLineEnd).
  { rewrite loopBody_at_directive by assumption. now rewrite Hl. }
  assert (Hne : sql <> EmptyString)
    by (intros ->; change (Index "" "delimiter ") with (-1) in Hc; lia).
  split; [exact N|]. split.
  - rewrite splitAll_step by assumption. now rewrite N.
  - destruct sql as [|c s]; [congruence|].
    destruct fuel as [|fuel]; [simpl in L; lia|].
    change (statements env d (S fuel) migration (String c s) delim) with
      (match loopBody (String c s) delim with
       | UnexpectedEnd =>
           fail (Errorf ("unexpected end of migration: " ++ migration))
       | Statement stmt rest =>
           wrap "executing migration statement" (sqlExec env (db d) stmt []) ;;;
           match rest with
           | None => ret tt
           | Some sql' => statements env d fuel migration sql' delim
           end
       | Delimiter delim' rest =>
           match rest with
           | None => ret tt
           | Some sql' => statements env d fuel migration sql' delim'
           end
       | NoLineEnd => ret tt
       end).
    now rewrite N.
Qed.

Lemma directive_without_line_end_witness :
  0 <= Index "SELECT 'delimiter x'; DROP TABLE t;" "delimiter " /\
  Index "SELECT 'delimiter x'; DROP TABLE t;" "delimiter "
    <= Index "SELECT 'delimiter x'; DROP TABLE t;" ";" /\
  Index "SELECT 'delimiter x'; DROP TABLE t;" LF = -1 /\
  split "SELECT 'delimiter x'; DROP TABLE t;" = ([], Finished).
Proof.
  assert (H1 : 0 <= Index "SELECT 'delimiter x'; DROP TABLE t;" "delimiter ")
    by (vm_compute; discriminate).
  assert (H2 : Index "SELECT 'delimiter x'; DROP TABLE t;" "delimiter "
               <= Index "SELECT 'delimiter x'; DROP TABLE t;" ";")
    by (vm_compute; discriminate).
  assert (H3 : (String.length "SELECT 'delimiter x'; DROP TABLE t;" <= 35)%nat)
    by (simpl; lia).
  split; [exact H1|]. split; [exact H2|]. split; [reflexivity|].
  exact (proj1 (proj2 (directive_without_line_end sampleEnv sampleDB "m.sql"
                         "SELECT 'delimiter x'; DROP TABLE t;" ";" 35 emptyWorld
                         H1 (or_intror H2) eq_refl H3))).
Defined.

(** * No slice goes out of range *)

(** On a remainder that is not empty no slice of the loop body is out of
    range, so the loop body with checked slices gives what the loop body
    gives; and the two guards [len(sql) <= index] never hold: a turn that
    executes a statement or sets a delimiter always goes on with a
    remainder. *)
Theorem slices_in_range (sql delim : string) :
  sql <> EmptyString ->
  loopBodyChecked sql delim = Some (loopBody sql delim) /\
  (forall stmt, loopBody sql delim <> Statement stmt None) /\
  (forall delim', loopBody sql delim <> Delimiter delim' None).
Proof.
  intros Hne.
  pose proof (string_nonempty_length sql Hne) as Hl.
  assert (In1 : forall k, 0 <= k <= len sql ->
                          sliceToChecked sql k = Some (sliceTo sql k)).
  { intros k Hk. unfold sliceToChecked.
    replace (0 <=? k) with true by (symmetry; apply Z.leb_le; lia).
    replace (k <=? len sql) with true by (symmetry; apply Z.leb_le; lia).
    reflexivity. }
  assert (In2 : forall k, 0 <= k <= len sql ->
                          sliceFromChecked sql k = Some (sliceFrom sql k)).
  { intros k Hk. unfold sliceFromChecked.
    replace (0 <=? k) with true by (symmetry; apply Z.leb_le; lia).
    replace (k <=? len sql) with true by (symmetry; apply Z.leb_le; lia).
    reflexivity. }
  assert (Bd : Index sql delim < len sql /\
               (delim = ";" -> Index sql delim + 1 <= len sql)).
  { destruct (Index_cases sql delim) as [[-> _]|(i & Ei & -> & Eb)];
      [unfold len; split; lia|].
    unfold len. split.
    - destruct delim as [|x delim]; simpl in Eb; [|lia].
      destruct sql; [congruence|]. simpl in Ei. injection Ei as <-. simpl. lia.
    - intros ->. simpl in Eb. lia. }
  assert (Bl : Index sql LF + 1 <= len sql).
  { destruct (Index_cases sql LF) as [[-> _]|(i & Ei & -> & Eb)];
      unfold len; simpl in *; lia. }
  destruct Bd as [Bd Bs].
  pose proof (Index_ge sql delim) as G1.
  pose proof (Index_ge sql LF) as G3.
  unfold loopBodyChecked, loopBody.
  destruct ((Index sql delim =? -1) && (Index sql "delimiter " =? -1)) eqn:E0.
  { repeat split; auto; discriminate. }
  destruct ((Index sql "delimiter " =? -1)
            || negb (Index sql delim =? -1)
               && (Index sql delim <? Index sql "delimiter ")) eqn:E1.
  - assert (Hi : 0 <= Index sql delim).
    { destruct (Index sql delim =? -1) eqn:E2.
      - simpl in *. rewrite E0 in E1. discriminate.
      - apply Z.eqb_neq in E2. lia. }
    replace (len sql <=? Index sql delim) with false
      by (symmetry; apply Z.leb_gt; lia).
    rewrite In2 by lia.
    destruct (delim =? ";")%string eqn:Ed.
    + apply String.eqb_eq in Ed. rewrite In1 by (specialize (Bs Ed); lia).
      repeat split; auto; discriminate.
    + rewrite In1 by lia. repeat split; auto; discriminate.
  - destruct (Index sql LF =? -1) eqn:E2.
    { repeat split; auto; discriminate. }
    apply Z.eqb_neq in E2.
    replace (len sql <=? Index sql LF) with false
      by (symmetry; apply Z.leb_gt; lia).
    rewrite In1, In2 by lia.
    repeat split; auto; discriminate.
Qed.

Lemma slices_in_range_witness :
  "A$$" <> EmptyString /\
  loopBodyChecked "A$$" "$$" = Some (Statement "A" (Some "$")).
Proof.
  split; [discriminate|].
  exact (proj1 (slices_in_range "A$$" "$$" ltac:(discriminate))).
Defined.

(** * The delimiter a directive sets *)







(** * The advance, and a line before a directive *)











(** * The extension test *)

Lemma Ext_from_cases (path : string) (i : nat) :
  Ext_from i path = EmptyString \/
  exists j, get j path = Some "."%char /\ Ext_from i path = drop j path.
Proof.
  induction i as [|i IH]; simpl; auto.
  destruct (get i path) as [c|] eqn:G; auto.
  destruct (c =? "/")%char; auto.
  destruct (c =? ".")%char eqn:E; auto.
  apply Ascii.eqb_eq in E. subst c. right. now exists i.
Qed.

Lemma get_app_length (base e : string) (k : nat) :
  get (String.length base + k) (base ++ e) = get k e.
Proof. induction base as [|c base IH]; simpl; auto. Qed.

Lemma lower_dot (c : ascii) : lower c = "."%char -> c = "."%char.
Proof.
  destruct c as [[] [] [] [] [] [] [] []]; vm_compute; intros H;
    first [reflexivity | discriminate H].
Qed.

Lemma lower_letter (c x : ascii) :
  lower c = x -> (x = "s" \/ x = "q" \/ x = "l")%char ->
  (c =? "/")%char = false /\ (c =? ".")%char = false.
Proof.
  intros H [Hx|[Hx|Hx]]; rewrite Hx in H; clear Hx;
    destruct c as [[] [] [] [] [] [] [] []]; vm_compute in H;
      first [discriminate H | split; reflexivity].
Qed.

Lemma Ext_suffix (base : string) (c0 c1 c2 c3 : ascii) :
  lower c0 = "."%char -> lower c1 = "s"%char -> lower c2 = "q"%char ->
  lower c3 = "l"%char ->
  Ext (base ++ String c0 (String c1 (String c2 (String c3 EmptyString))))
    = String c0 (String c1 (String c2 (String c3 EmptyString))).
Proof.
  intros H0 H1 H2 H3. apply lower_dot in H0. subst c0.
  destruct (lower_letter c1 _ H1) as [A1 B1]; auto.
  destruct (lower_letter c2 _ H2) as [A2 B2]; auto.
  destruct (lower_letter c3 _ H3) as [A3 B3]; auto.
  set (e := String "." (String c1 (String c2 (String c3 "")))).
  unfold Ext. rewrite length_append_s.
  change (String.length e) with 4%nat.
  replace (String.length base + 4)%nat with (S (String.length base + 3)) by lia.
  cbn [Ext_from]. rewrite get_app_length. simpl get. cbv beta iota. rewrite A3, B3.
  replace (String.length base + 3)%nat with (S (String.length base + 2)) by lia.
  cbn [Ext_from]. rewrite get_app_length. simpl get. cbv beta iota. rewrite A2, B2.
  replace (String.length base + 2)%nat with (S (String.length base + 1)) by lia.
  cbn [Ext_from]. rewrite get_app_length. simpl get. cbv beta iota. rewrite A1, B1.
  replace (String.length base + 1)%nat with (S (String.length base + 0)) by lia.
  cbn [Ext_from]. rewrite get_app_length. simpl get. cbv beta iota.
  change (("." =? "/")%char) with false. change (("." =? ".")%char) with true.
  cbv iota. apply drop_app_length.
Qed.

Lemma ToLower_sql (e : string) :
  ToLower e = ".sql" ->
  exists c0 c1 c2 c3,
    e = String c0 (String c1 (String c2 (String c3 EmptyString))) /\
    lower c0 = "."%char /\ lower c1 = "s"%char /\ lower c2 = "q"%char /\
    lower c3 = "l"%char.
Proof.
  destruct e as [|c0 [|c1 [|c2 [|c3 [|c4 e]]]]]; simpl; try discriminate.
  intros [= H0 H1 H2 H3]. exists c0, c1, c2, c3. auto.
Qed.

(** An entry is kept exactly when it is no directory and its name ends in
    [.sql] in any letter case; a name that is nothing but [.sql] counts. *)
Theorem sql_extension_iff (entry : DirEntry) :
  skipped entry = false <->
  IsDir entry = false /\
  exists base e, Name entry = base ++ e /\ ToLower e = ".sql".
Proof.
  unfold skipped. rewrite orb_false_iff, negb_false_iff, String.eqb_eq.
  split; intros [Hd H]; (split; [exact Hd|]).
  - destruct (Ext_from_cases (Name entry) (String.length (Name entry)))
      as [E|(j & _ & E)]; fold (Ext (Name entry)) in E; rewrite E in H.
    + discriminate H.
    + exists (take j (Name entry)), (drop j (Name entry)).
      split; [symmetry; apply take_drop | exact H].
  - destruct H as (base & e & -> & He).
    destruct (ToLower_sql e He) as (c0 & c1 & c2 & c3 & -> & H0 & H1 & H2 & H3).
    now rewrite Ext_suffix.
Qed.

(** * The ways the helpers and [NewDB] end *)

Section EndingsFacts.

Variable env : Env.

Lemma dropExistingDatabaseIfExist_helped (dsn dbName : string) (w : World) :
  exists t,
    snd (dropExistingDatabaseIfExist env dsn dbName w) = logged w (ledger w) t /\
    helped dsn ("DROP DATABASE IF EXISTS " ++ dbName ++ ";") "dropping database"
      (fst (dropExistingDatabaseIfExist env dsn dbName w)) t.
Proof.
  unfold dropExistingDatabaseIfExist, bind, wrap, catch, defer, sqlOpen, sqlPing,
    sqlExec, sqlClose, invoke, bind, ret, fail, logged. simpl.
  repeat match goal with
         | |- context [fault env ?l ?t ?c] => destruct (fault env l t c); simpl
         end;
    (eexists; split; [rewrite <- ?app_assoc; reflexivity | constructor]).
Qed.

Lemma createDatabaseIfNotExist_helped (dsn dbName : string) (w : World) :
  exists t,
    snd (createDatabaseIfNotExist env dsn dbName w) = logged w (ledger w) t /\
    helped dsn ("CREATE DATABASE IF NOT EXISTS " ++ dbName ++ ";") "creating database"
      (fst (createDatabaseIfNotExist env dsn dbName w)) t.
Proof.
  unfold createDatabaseIfNotExist, bind, wrap, catch, defer, sqlOpen, sqlPing,
    sqlExec, sqlClose, invoke, bind, ret, fail, logged. simpl.
  repeat match goal with
         | |- context [fault env ?l ?t ?c] => destruct (fault env l t c); simpl
         end;
    (eexists; split; [rewrite <- ?app_assoc; reflexivity | constructor]).
Qed.

Lemma step_run (enabled : bool) (m : M unit) (dsn stmt context : string) (w : World) :
  (exists t, snd (m w) = logged w (ledger w) t /\ helped dsn stmt context (fst (m w)) t) ->
  exists t, snd ((if enabled then m else ret tt) w) = logged w (ledger w) t /\
            step enabled dsn stmt context (fst ((if enabled then m else ret tt) w)) t.
Proof.
  intros (t & H1 & H2). destruct enabled.
  - exists t. split; [exact H1 | now apply step_taken].
  - exists []. simpl. rewrite logged_nil. split; [reflexivity | now constructor].
Qed.

Lemma step_result (enabled : bool) (dsn stmt context : string)
      (r : result unit) (t : list event) :
  step enabled dsn stmt context r t -> r = Ok tt \/ exists e, r = Fail e.
Proof.
  intros H. destruct H as [|r t _ H]; [now left|].
  destruct H; eauto.
Qed.

Lemma mainEnd_run (dsn0 : string) (d : DB) (w : World) :
  mainEnd env dsn0 d w
    (fst (catch (sqlOpen env MainDB dsn0)
            (fun err => ret (None, Some (Wrap "opening database" err)))
            (fun h =>
               let d := setHandle d h in
               catch (sqlPing env (db d))
                 (fun err => ignore (sqlClose env (db d)) ;;; ret (None, Some err))
                 (fun _ =>
                    catch (if negb (migrationsDir d =? "")%string
                           then runMigrations env d else ret tt)
                      (fun err => ignore (sqlClose env (db d)) ;;;
                                  ret (None, Some (Wrap "running migrations" err)))
                      (fun _ => ret (Some d, None)))) w))
    (snd (catch (sqlOpen env MainDB dsn0)
            (fun err => ret (None, Some (Wrap "opening database" err)))
            (fun h =>
               let d := setHandle d h in
               catch (sqlPing env (db d))
                 (fun err => ignore (sqlClose env (db d)) ;;; ret (None, Some err))
                 (fun _ =>
                    catch (if negb (migrationsDir d =? "")%string
                           then runMigrations env d else ret tt)
                      (fun err => ignore (sqlClose env (db d)) ;;;
                                  ret (None, Some (Wrap "running migrations" err)))
                      (fun _ => ret (Some d, None)))) w)).
Proof.
  rewrite catch_run, sqlOpen_run.
  destruct (fault env (ledger w) (trace w) (Open MainDB dsn0)) as [e|].
  { simpl. constructor. }
  cbv zeta. rewrite catch_run. simpl db. unfold sqlPing. rewrite invoke_run.
  destruct (fault env _ _ (Ping MainDB)) as [e|].
  { rewrite ignore_close, !logged_logged. simpl. constructor. }
  simpl effect. rewrite logged_logged. simpl ledger. simpl app.
  rewrite catch_run.
  destruct (migrationsDir (setHandle d MainDB) =? "")%string eqn:Hdir;
    change (migrationsDir (setHandle d MainDB)) with (migrationsDir d) in Hdir;
    unfold negb; cbv iota.
  { apply String.eqb_eq in Hdir. simpl. now constructor. }
  apply String.eqb_neq in Hdir.
  match goal with
  | |- context [runMigrations env ?a ?b] =>
      destruct (runMigrations_work env a b eq_refl) as (tm & _ & _ & Hfm);
      destruct (runMigrations env a b) as [[[]|e| |] wm] eqn:Er
  end; simpl in Hfm.
  - simpl. now apply end_migrated.
  - rewrite ignore_close. simpl. now apply end_migration_failed.
  - simpl. now apply end_panicked.
  - congruence.
Qed.

Lemma NewDB_run (dsn0 : string) (options : list Option) (cfg : Config) (w : World) :
  ParseDSN env dsn0 = inr cfg ->
  NewDBEnd env dsn0 cfg (configure cfg dsn0 options) w
    (fst (NewDB env dsn0 options w)) (snd (NewDB env dsn0 options w)).
Proof.
  intros Hp. unfold NewDB. rewrite Hp.
  set (d := configure cfg dsn0 options).
  rewrite catch_run.
  destruct (step_run (dropExisting d)
              (dropExistingDatabaseIfExist env (FormatDSN env (withDBName cfg "")) (name d))
              _ _ _ w
              (dropExistingDatabaseIfExist_helped _ _ w)) as (t1 & Hw1 & Hs1).
  destruct ((if dropExisting d then _ else ret tt) w) as [r1 wa].
  simpl in Hw1, Hs1. subst wa.
  destruct (step_result _ _ _ _ _ _ Hs1) as [->|[e ->]].
  2:{ simpl. now apply end_drop_failed. }
  rewrite catch_run.
  destruct (step_run (autoCreate d)
              (createDatabaseIfNotExist env (FormatDSN env (withDBName cfg "")) (name d))
              _ _ _ (logged w (ledger w) t1)
              (createDatabaseIfNotExist_helped _ _ _)) as (t2 & Hw2 & Hs2).
  destruct ((if autoCreate d then _ else ret tt) (logged w (ledger w) t1)) as [r2 wb].
  simpl in Hw2, Hs2. subst wb. rewrite logged_logged. simpl ledger.
  destruct (step_result _ _ _ _ _ _ Hs2) as [->|[e ->]].
  2:{ simpl. now apply end_create_failed. }
  eapply end_main; [exact Hs1 | exact Hs2 |].
  apply mainEnd_run.
Qed.

End EndingsFacts.

(** ** What the endings give *)

(** Each administrative helper ends in one of four ways and leaves the
    ledger alone: the connection does not open (nothing else is called); the
    ping fails; the statement fails; or all is well. In the last three the
    connection is closed as the last call, and what the close returns is
    dropped. *)
Theorem admin_helpers_outcomes (env : Env) (dsn dbName : string) (w : World) :
  (exists t,
      snd (createDatabaseIfNotExist env dsn dbName w) = logged w (ledger w) t /\
      helped dsn ("CREATE DATABASE IF NOT EXISTS " ++ dbName ++ ";") "creating database"
        (fst (createDatabaseIfNotExist env dsn dbName w)) t) /\
  (exists t,
      snd (dropExistingDatabaseIfExist env dsn dbName w) = logged w (ledger w) t /\
      helped dsn ("DROP DATABASE IF EXISTS " ++ dbName ++ ";") "dropping database"
        (fst (dropExistingDatabaseIfExist env dsn dbName w)) t).
Proof.
  split; [apply createDatabaseIfNotExist_helped | apply dropExistingDatabaseIfExist_helped].
Qed.

Lemma step_Ok (enabled : bool) (dsn stmt context : string) (t : list event) :
  step enabled dsn stmt context (Ok tt) t ->
  exists c, t = if enabled
                then [(Open AdminDB dsn, None); (Ping AdminDB, None);
                      (Exec AdminDB stmt [], None); (Close AdminDB, c)]
                else [].
Proof.
  intros H. inversion H as [He|r t' He Hh]; rewrite He.
  - now exists None.
  - inversion Hh; subst. now exists c.
Qed.

Lemma helped_adminOnly (dsn stmt context : string) (r : result unit) (t : list event) :
  helped dsn stmt context r t -> adminOnly t.
Proof. intros H; destruct H; repeat constructor. Qed.

Lemma step_adminOnly (enabled : bool) (dsn stmt context : string)
      (r : result unit) (t : list event) :
  step enabled dsn stmt context r t -> adminOnly t.
Proof.
  intros H; destruct H as [|r t _ H]; [constructor | now apply helped_adminOnly in H].
Qed.

(** A [NewDB] that returns a handle returns the configured [DB] on the main
    connection, and has made these calls in this order: the drop on an
    administrative connection of its own if drop-existing is set, the
    creation likewise if auto-create is set, the opening and the ping of the
    main connection, and then calls of the migration runner only, none of
    them with an empty migrations directory. With a directory, every
    migration file of the listing is in the ledger afterwards. *)
Theorem NewDB_success (env : Env) (dsn0 : string) (options : list Option)
        (w : World) (d' : DB) (w' : World) :
  NewDB env dsn0 options w = (Ok (Some d', None), w') ->
  exists cfg c1 c2 tm,
    ParseDSN env dsn0 = inr cfg /\
    d' = setHandle (configure cfg dsn0 options) MainDB /\
    trace w' =
      (trace w
       ++ (if dropExisting d'
           then [(Open AdminDB (FormatDSN env (withDBName cfg "")), None);
                 (Ping AdminDB, None);
                 (Exec AdminDB ("DROP DATABASE IF EXISTS " ++ name d' ++ ";") [], None);
                 (Close AdminDB, c1)]
           else [])
       ++ (if autoCreate d'
           then [(Open AdminDB (FormatDSN env (withDBName cfg "")), None);
                 (Ping AdminDB, None);
                 (Exec AdminDB ("CREATE DATABASE IF NOT EXISTS " ++ name d' ++ ";") [], None);
                 (Close AdminDB, c2)]
           else [])
       ++ [(Open MainDB dsn0, None); (Ping MainDB, None)]
       ++ tm)%list /\
    onlyWork tm /\
    (migrationsDir d' = EmptyString -> tm = []) /\
    (forall f entries,
        migrationsDir d' <> EmptyString ->
        migrationsFS d' = Some f ->
        fsReadDir f (migrationsDir d') = inr entries ->
        forall n, In n (migrationNames entries) -> hasName n (ledger w') = true).
Proof.
  intros Hnew.
  destruct (ParseDSN env dsn0) as [err|cfg] eqn:Hp.
  { unfold NewDB in Hnew. rewrite Hp in Hnew. discriminate Hnew. }
  pose proof (NewDB_run env dsn0 options cfg w Hp) as H.
  rewrite Hnew in H. simpl in H.
  set (d := configure cfg dsn0 options) in *.
  inversion H as [| |t1 t2 r wx Hs1 Hs2 Hm]; subst.
  apply step_Ok in Hs1 as (c1 & ->). apply step_Ok in Hs2 as (c2 & ->).
  exists cfg, c1, c2.
  inversion Hm as [| |Hdir|wx Hdir Hrun| |]; subst.
  - exists []. split; [reflexivity|]. split; [reflexivity|].
    split; [simpl; now rewrite <- !app_assoc|].
    split; [constructor|]. split; [reflexivity|].
    intros f entries Hn. now destruct Hn.
  - match type of Hrun with
    | runMigrations _ ?a ?b = _ =>
        destruct (runMigrations_work env a b eq_refl) as (tm & Hw & Ht & _);
        pose proof (fun f entries => runMigrations_facts env a f entries b eq_refl) as Hfacts
    end.
    rewrite Hrun in Hw. simpl in Hw. exists tm.
    split; [reflexivity|]. split; [reflexivity|].
    split; [rewrite Hw; simpl; now rewrite <- !app_assoc|].
    split; [exact Ht|]. split; [intros E; now destruct Hdir|].
    intros f entries _ Hf Hr n Hn.
    destruct (Hfacts f entries Hf Hr) as (t0 & _ & _ & Hok & _).
    rewrite Hrun in Hok. simpl in Hok. now apply (proj2 (Hok eq_refl)).
Qed.

Lemma NewDB_success_witness :
  NewDB sampleEnv "/app" sampleOptions emptyWorld
    = (Ok (Some sampleDB, None), snd (NewDB sampleEnv "/app" sampleOptions emptyWorld)) /\
  hasName "02_x.sql" (ledger (snd (NewDB sampleEnv "/app" sampleOptions emptyWorld))) = true.
Proof.
  assert (N : NewDB sampleEnv "/app" sampleOptions emptyWorld
              = (Ok (Some sampleDB, None),
                 snd (NewDB sampleEnv "/app" sampleOptions emptyWorld)))
    by (vm_compute; reflexivity).
  split; [exact N|].
  destruct (NewDB_success sampleEnv "/app" sampleOptions emptyWorld sampleDB _ N)
    as (cfg & c1 & c2 & tm & _ & _ & _ & _ & _ & Hall).
  apply (Hall sampleFS sampleEntries); [discriminate | reflexivity | reflexivity|].
  simpl. auto.
Defined.


(** The errors of [NewDB], each with what was done before it: a connection
    string that does not parse (nothing is called); a failed drop or
    creation, after administrative calls only; a main connection that does
    not open; a ping that fails, whose error is returned as it is, without a
    context, after the connection was closed; failed migrations, after which
    the connection is closed as the last call. *)
Theorem NewDB_errors (env : Env) (dsn0 : string) (options : list Option)
        (w : World) (err : error) (w' : World) :
  NewDB env dsn0 options w = (Ok (None, Some err), w') ->
  match ParseDSN env dsn0 with
  | inl e => err = Wrap "parsing dsn" e /\ w' = w
  | inr cfg =>
      exists t ta,
        trace w' = (trace w ++ ta ++ t)%list /\ adminOnly ta /\
        ((exists e, err = Wrap "dropping existing database" e /\ ta = [] /\
                    dropExisting (configure cfg dsn0 options) = true /\
                    helped (FormatDSN env (withDBName cfg ""))
                      ("DROP DATABASE IF EXISTS "
                       ++ name (configure cfg dsn0 options) ++ ";")
                      "dropping database" (Fail e) t) \/
         (exists e, err = Wrap "auto-creating database" e /\
                    autoCreate (configure cfg dsn0 options) = true /\
                    helped (FormatDSN env (withDBName cfg ""))
                      ("CREATE DATABASE IF NOT EXISTS "
                       ++ name (configure cfg dsn0 options) ++ ";")
                      "creating database" (Fail e) t) \/
         (exists e, err = Wrap "opening database" e /\
                    t = [(Open MainDB dsn0, Some e)]) \/
         (exists c, t = [(Open MainDB dsn0, None); (Ping MainDB, Some err);
                         (Close MainDB, c)]) \/
         (exists e c tm, err = Wrap "running migrations" e /\
                         t = ([(Open MainDB dsn0, None); (Ping MainDB, None)]
                              ++ tm ++ [(Close MainDB, c)])%list /\
                         onlyWork tm /\
                         migrationsDir (configure cfg dsn0 options) <> EmptyString))
  end.
Proof.
  intros Hnew.
  destruct (ParseDSN env dsn0) as [e|cfg] eqn:Hp.
  { unfold NewDB in Hnew. rewrite Hp in Hnew. injection Hnew as <- <-. now split. }
  pose proof (NewDB_run env dsn0 options cfg w Hp) as H.
  rewrite Hnew in H. simpl in H.
  set (d := configure cfg dsn0 options) in *.
  inversion H as [t1 e Hs1|t1 t2 e Hs1 Hs2|t1 t2 r wx Hs1 Hs2 Hm]; subst.
  - inversion Hs1 as [|r t He Hh]; subst.
    exists t1, []. split; [reflexivity|]. split; [constructor|].
    left. exists e. auto.
  - inversion Hs2 as [|r t He Hh]; subst.
    exists t2, t1. split; [reflexivity|].
    split; [now apply step_adminOnly in Hs1|].
    right; left. exists e. auto.
  - assert (Ha : adminOnly (t1 ++ t2)).
    { apply Forall_app. split; [now apply step_adminOnly in Hs1
                               | now apply step_adminOnly in Hs2]. }
    inversion Hm as [e|e c| | |e wx c Hdir Hrun|]; subst.
    + exists [(Open MainDB dsn0, Some e)], (t1 ++ t2)%list.
      split; [simpl; now rewrite <- !app_assoc|]. split; [exact Ha|].
      right; right; left. now exists e.
    + exists [(Open MainDB dsn0, None); (Ping MainDB, Some err); (Close MainDB, c)],
        (t1 ++ t2)%list.
      split; [simpl; now rewrite <- !app_assoc|]. split; [exact Ha|].
      right; right; right; left. now exists c.
    + match type of Hrun with
      | runMigrations _ ?a ?b = _ =>
          destruct (runMigrations_work env a b eq_refl) as (tm & Hw & Ht & _)
      end.
      rewrite Hrun in Hw. simpl in Hw.
      exists ([(Open MainDB dsn0, None); (Ping MainDB, None)] ++ tm ++ [(Close MainDB, c)])%list.
      exists (t1 ++ t2)%list. split.
      { rewrite Hw. simpl. now rewrite <- !app_assoc. }
      split; [exact Ha|].
      right; right; right; right. exists e, c, tm. auto.
Qed.

Lemma NewDB_errors_witness :
  NewDB silentEnv "/app" [DropDBOnClose] emptyWorld
    = (Ok (None, Some (External "connection refused")),
       snd (NewDB silentEnv "/app" [DropDBOnClose] emptyWorld)) /\
  exists t ta,
    trace (snd (NewDB silentEnv "/app" [DropDBOnClose] emptyWorld)) = (ta ++ t)%list /\
    adminOnly ta.
Proof.
  assert (N : NewDB silentEnv "/app" [DropDBOnClose] emptyWorld
              = (Ok (None, Some (External "connection refused")),
                 snd (NewDB silentEnv "/app" [DropDBOnClose] emptyWorld)))
    by (vm_compute; reflexivity).
  split; [exact N|].
  pose proof (NewDB_errors silentEnv "/app" [DropDBOnClose] emptyWorld _ _ N) as H.
  simpl in H. destruct H as (t & ta & Ht & Ha & _).
  exists t, ta. split; [exact Ht | exact Ha].
Defined.


(** ** Connections *)

Lemma held_app (t1 t2 : list event) :
  forall open, held open (t1 ++ t2) = held (held open t1) t2.
Proof.
  induction t1 as [|[c e] t1 IH]; intros open; [reflexivity|].
  simpl. destruct c; try apply IH. destruct e; apply IH.
Qed.

Lemma held_onlyWork (t : list event) :
  onlyWork t -> forall open, held open t = open.
Proof.
  induction 1 as [|[c e] t Hc _ IH]; intros open; [reflexivity|].
  simpl in *. destruct c; try discriminate Hc; apply IH.
Qed.

Lemma held_helped (dsn stmt context : string) (r : result unit) (t : list event) :
  helped dsn stmt context r t -> forall open, held open t = open.
Proof. intros H open; destruct H; reflexivity. Qed.

Lemma held_step (enabled : bool) (dsn stmt context : string)
      (r : result unit) (t : list event) :
  step enabled dsn stmt context r t -> forall open, held open t = open.
Proof.
  intros H open; destruct H as [|r t _ H]; [reflexivity | exact (held_helped _ _ _ _ _ H open)].
Qed.

(** Counting a connection as open from its successful [Open] to its [Close]:
    [NewDB] leaves the main connection open when it returns a handle and
    when it panics, and no connection when it returns an error; [Close]
    takes the connection of its [DB] off and leaves no other behind, whether
    it drops the database or not and whatever fails; each helper leaves none
    behind, whatever fails. *)
Theorem connections_released (env : Env) (open : list handle) :
  (forall dsn0 options w,
      exists t,
        trace (snd (NewDB env dsn0 options w)) = (trace w ++ t)%list /\
        held open t =
          match fst (NewDB env dsn0 options w) with
          | Ok (Some _, _) | Panic => MainDB :: open
          | _ => open
          end) /\
  (forall d w,
      exists t,
        trace (snd (DB_Close env d w)) = (trace w ++ t)%list /\
        held (db d :: open) t = open) /\
  (forall dsn dbName w,
      (exists t,
          trace (snd (createDatabaseIfNotExist env dsn dbName w)) = (trace w ++ t)%list /\
          held open t = open) /\
      (exists t,
          trace (snd (dropExistingDatabaseIfExist env dsn dbName w)) = (trace w ++ t)%list /\
          held open t = open)).
Proof.
  assert (Hhelp : forall dsn dbName w,
      (exists t,
          trace (snd (createDatabaseIfNotExist env dsn dbName w)) = (trace w ++ t)%list /\
          held open t = open) /\
      (exists t,
          trace (snd (dropExistingDatabaseIfExist env dsn dbName w)) = (trace w ++ t)%list /\
          held open t = open)).
  { intros dsn dbName w. split.
    - destruct (createDatabaseIfNotExist_helped env dsn dbName w) as (t & Hw & Hh).
      exists t. rewrite Hw. split; [reflexivity | exact (held_helped _ _ _ _ _ Hh open)].
    - destruct (dropExistingDatabaseIfExist_helped env dsn dbName w) as (t & Hw & Hh).
      exists t. rewrite Hw. split; [reflexivity | exact (held_helped _ _ _ _ _ Hh open)]. }
  split; [|split; [|exact Hhelp]].
  - intros dsn0 options w.
    destruct (ParseDSN env dsn0) as [e|cfg] eqn:Hp.
    { unfold NewDB. rewrite Hp. exists []. simpl. now rewrite app_nil_r. }
    pose proof (NewDB_run env dsn0 options cfg w Hp) as H.
    destruct (NewDB env dsn0 options w) as [r wx]. simpl in *.
    inversion H as [t1 e Hs1|t1 t2 e Hs1 Hs2|t1 t2 r' wx' Hs1 Hs2 Hm]; subst.
    + exists t1. split; [reflexivity | exact (held_step _ _ _ _ _ _ Hs1 open)].
    + exists (t1 ++ t2)%list. split; [reflexivity|].
      rewrite held_app, (held_step _ _ _ _ _ _ Hs1), (held_step _ _ _ _ _ _ Hs2).
      reflexivity.
    + assert (Ha : held open (t1 ++ t2) = open).
      { rewrite held_app, (held_step _ _ _ _ _ _ Hs1), (held_step _ _ _ _ _ _ Hs2).
        reflexivity. }
      inversion Hm as [e|e c|Hdir|wy Hdir Hrun|e wy c Hdir Hrun|wy Hdir Hrun]; subst;
        try (eexists; split; [simpl; rewrite <- app_assoc; reflexivity|];
             rewrite held_app, Ha; reflexivity);
        match type of Hrun with
        | runMigrations _ ?a ?b = _ =>
            destruct (runMigrations_work env a b eq_refl) as (tm & Hw & Ht & _)
        end; rewrite Hrun in Hw; simpl in Hw; rewrite Hw.
      * eexists. split; [simpl; rewrite <- !app_assoc; reflexivity|].
        rewrite (app_assoc t1 t2), held_app, Ha. simpl. now apply held_onlyWork.
      * eexists. split; [simpl; rewrite <- !app_assoc; reflexivity|].
        rewrite (app_assoc t1 t2), held_app, Ha. simpl.
        rewrite held_app, (held_onlyWork tm Ht). reflexivity.
      * eexists. split; [simpl; rewrite <- !app_assoc; reflexivity|].
        rewrite (app_assoc t1 t2), held_app, Ha. simpl. now apply held_onlyWork.
  - intros d w. unfold DB_Close.
    rewrite bind_run. unfold sqlClose. rewrite wrap_invoke.
    destruct (fault env (ledger w) (trace w) (Close (db d))) as [e|].
    { eexists. split; [reflexivity|]. simpl. destruct (db d); reflexivity. }
    simpl effect.
    destruct (dropOnClose d); unfold negb; cbv iota.
    2:{ eexists. split; [reflexivity|]. simpl. destruct (db d); reflexivity. }
    destruct (ParseDSN env (dsn d)) as [e|cfg].
    { eexists. split; [reflexivity|]. simpl. destruct (db d); reflexivity. }
    destruct (dropExistingDatabaseIfExist_helped env (FormatDSN env (withDBName cfg ""))
                (name d) (logged w (ledger w) [(Close (db d), None)])) as (t & Hw & Hh).
    rewrite Hw. eexists. split; [simpl; rewrite <- app_assoc; reflexivity|].
    simpl. replace (if handle_eqb (db d) (db d) then open else db d :: release (db d) open)
      with open by (destruct (db d); reflexivity).
    exact (held_helped _ _ _ _ _ Hh open).
Qed.

(** * The ledger *)

Lemma hasName_In (n : string) (l : list string) : hasName n l = true <-> In n l.
Proof.
  unfold hasName. rewrite existsb_exists. split.
  - intros (x & Hx & E). apply String.eqb_eq in E. now subst.
  - intros H. exists n. split; [exact H | apply String.eqb_refl].
Qed.

Lemma hasName_not_In (n : string) (l : list string) : hasName n l = false <-> ~ In n l.
Proof.
  rewrite <- hasName_In. destruct (hasName n l); split; congruence.
Qed.

Section Ledger.

Variable env : Env.

Lemma applied_ledger (d : DB) (m : string) (w : World) (r : result unit) (w' : World) :
  applied env d m w r w' ->
  ledger w' = ledger w \/
  (r = Ok tt /\ ~ In m (ledger w) /\ ledger w' = (ledger w ++ [m])%list).
Proof.
  intros H. inversion H; subst; simpl; auto.
  - match goal with
    | Hs : statementsEnd _ _ _ _ _ _ |- _ => inversion Hs; subst; simpl; auto
    end.
  - right. split; [reflexivity|]. split; [now apply hasName_not_In | reflexivity].
Qed.

Lemma migrate_ledger (d : DB) :
  db d = MainDB ->
  forall (names : list string) (w : World),
    StronglySorted le names ->
    exists added,
      ledger (snd (migrate env d names w)) = (ledger w ++ added)%list /\
      incl added names /\
      StronglySorted le added /\
      NoDup added /\
      (forall n, In n added -> ~ In n (ledger w)).
Proof.
  intros Hd. induction names as [|m later IH]; intros w Hs.
  - exists []. simpl. rewrite app_nil_r.
    repeat split; auto; try constructor; intros ? [].
  - change (migrate env d (m :: later))
      with (applyMigration env d m ;;; migrate env d later).
    rewrite bind_run.
    pose proof (applyMigration_run env d m w Hd) as Ha.
    destruct (applyMigration env d m w) as [r1 w1]. simpl in Ha.
    apply applied_ledger in Ha.
    apply StronglySorted_inv in Hs as [Hs Hm].
    destruct r1 as [[]|e| |].
    2,3,4: (destruct Ha as [Ha|(Ha & _)]; [|discriminate Ha];
            exists []; simpl; rewrite app_nil_r;
            repeat split; auto; first [apply incl_nil_l | constructor]).
    destruct (IH w1 Hs) as (added & El & Hi & Hso & Hnd & Hni).
    destruct Ha as [Ha|(_ & Hn & Ha)].
    + exists added. rewrite El, Ha. repeat split; auto.
      * intros n Hin. right. now apply Hi.
      * intros n Hin. rewrite <- Ha. now apply Hni.
    + exists (m :: added). rewrite El, Ha, <- app_assoc. simpl.
      assert (Hnm : ~ In m added).
      { intros Hin. apply (Hni m Hin). rewrite Ha. apply in_or_app. right. now left. }
      repeat split; auto.
      * intros n [<-|Hin]; [now left | right; now apply Hi].
      * constructor; [exact Hso|].
        rewrite Forall_forall in *. intros n Hin. apply Hm. now apply Hi.
      * now constructor.
      * intros n [<-|Hin]; [exact Hn|].
        intros Hl. apply (Hni n Hin). rewrite Ha. apply in_or_app. now left.
Qed.

End Ledger.

Lemma NoDup_app_disjoint {A : Type} (l1 l2 : list A) :
  NoDup l1 -> NoDup l2 -> (forall x, In x l2 -> ~ In x l1) -> NoDup (l1 ++ l2).
Proof.
  intros H1 H2 Hd. induction H1 as [|a l1 Ha H1 IH]; simpl; auto.
  constructor.
  - intros Hin. apply in_app_or in Hin as [Hin|Hin]; [now apply Ha|].
    apply (Hd a Hin). now left.
  - apply IH. intros x Hx Hin. apply (Hd x Hx). now right.
Qed.

(** The runner only adds to the ledger: the rows it adds are names of
    migration files of the listing, in ascending order, each once, none that
    the ledger held; so a ledger without duplicates stays so; and after a
    run that ends well every migration file of the listing is in the ledger.
    *)
Theorem runMigrations_ledger (env : Env) (d : DB) (f : FS)
        (entries : list DirEntry) (w : World) (r : result unit) (w' : World) :
  db d = MainDB ->
  migrationsFS d = Some f ->
  fsReadDir f (migrationsDir d) = inr entries ->
  runMigrations env d w = (r, w') ->
  exists added,
    ledger w' = (ledger w ++ added)%list /\
    incl added (migrationNames entries) /\
    StronglySorted le added /\
    NoDup added /\
    (forall n, In n added -> ~ In n (ledger w)) /\
    (NoDup (ledger w) -> NoDup (ledger w')) /\
    (r = Ok tt -> forall n, In n (migrationNames entries) -> In n (ledger w')).
Proof.
  intros Hd Hf Hr Hrun.
  assert (Hok : r = Ok tt -> forall n, In n (migrationNames entries) -> In n (ledger w')).
  { destruct (runMigrations_facts env d f entries w Hd Hf Hr) as (t & _ & _ & Hok & _).
    rewrite Hrun in Hok. simpl in Hok.
    intros E n Hn. apply hasName_In. now apply (proj2 (Hok E)). }
  assert (Hadd : exists added,
             ledger w' = (ledger w ++ added)%list /\
             incl added (migrationNames entries) /\
             StronglySorted le added /\ NoDup added /\
             (forall n, In n added -> ~ In n (ledger w))).
  { revert Hrun. unfold runMigrations. rewrite Hd.
    rewrite bind_run. unfold sqlExec. rewrite wrap_invoke.
    destruct (fault env (ledger w) (trace w) (Exec MainDB createMigrations [])) as [e|].
    { intros [= <- <-]. exists []. simpl. rewrite app_nil_r.
      repeat split; auto; try constructor; intros ? []. }
    simpl effect. rewrite bind_run, Hf, wrap_ReadDirFS, Hr.
    rewrite logged_logged. simpl ledger. simpl app.
    intros Hrun.
    match type of Hrun with
    | ?m ?b = _ =>
        destruct (migrate_ledger env d Hd (migrationNames entries) b
                    (sortStrings_sorted _)) as (added & El & H);
        change (migrate env d (migrationNames entries) b) with (m b) in El
    end.
    rewrite Hrun in El. simpl in El. now exists added. }
  destruct Hadd as (added & El & Hi & Hs & Hn & Hni).
  exists added. repeat split; auto.
  intros Hnd. rewrite El. now apply NoDup_app_disjoint.
Qed.

Lemma runMigrations_ledger_witness :
  db sampleDB = MainDB /\
  migrationsFS sampleDB = Some sampleFS /\
  fsReadDir sampleFS (migrationsDir sampleDB) = inr sampleEntries /\
  ledger (snd (runMigrations sampleEnv sampleDB emptyWorld)) = ["01_y.SQL"; "02_x.sql"] /\
  NoDup (ledger (snd (runMigrations sampleEnv sampleDB emptyWorld))).
Proof.
  split; [reflexivity|]. split; [reflexivity|]. split; [reflexivity|].
  split; [vm_compute; reflexivity|].
  destruct (runMigrations_ledger sampleEnv sampleDB sampleFS sampleEntries emptyWorld
              _ _ eq_refl eq_refl eq_refl (surjective_pairing _))
    as (added & _ & _ & _ & _ & _ & H & _).
  apply H. constructor.
Defined.

(** * Stopping at the first failure *)

Lemma clean_executed (l : list string) : clean (map executed l).
Proof. induction l; constructor; auto. Qed.

Lemma failFast_after (r : result unit) (t1 t2 : list event) :
  clean t1 -> failFast r t2 -> failFast r (t1 ++ t2).
Proof.
  intros H1 [[H2 Hr]|(t0 & c & e & ctx & -> & H0 & ->)].
  - left. split; [now apply Forall_app | exact Hr].
  - right. exists (t1 ++ t0)%list, c, e, ctx.
    split; [now rewrite app_assoc|]. split; [now apply Forall_app | reflexivity].
Qed.

Lemma failFast_Ok (t : list event) : failFast (Ok tt) t -> clean t.
Proof.
  intros [[H _]|(t0 & c & e & ctx & _ & _ & E)]; [exact H | discriminate E].
Qed.

Lemma statementsEnd_failFast (migration sql delim : string) (w : World)
      (r : result unit) (w' : World) :
  statementsEnd migration sql delim w r w' ->
  exists t, w' = logged w (ledger w) t /\ failFast r t.
Proof.
  intros H. inversion H; subst; eexists; (split; [reflexivity|]).
  - left. split; [apply clean_executed | discriminate].
  - left. split; [apply clean_executed | discriminate].
  - right. exists (map executed done), (Exec MainDB stmt []), e,
      "executing migration statement".
    split; [reflexivity|]. split; [apply clean_executed | reflexivity].
Qed.

Section FailFast.

Variable env : Env.

Lemma applied_failFast (d : DB) (m : string) (w : World) (r : result unit) (w' : World) :
  applied env d m w r w' ->
  exists t, w' = logged w (ledger w') t /\ failFast r t.
Proof.
  intros H. inversion H; subst.
  - eexists. split; [reflexivity|]. right.
    exists [], (lookup m), e, "querying for migration". repeat split. constructor.
  - eexists. split; [reflexivity|]. left. split; [repeat constructor | discriminate].
  - eexists. split; [reflexivity|]. left. split; [repeat constructor | discriminate].
  - eexists. split; [reflexivity|]. right.
    exists [(lookup m, None)], (ReadFile (pathJoin env (migrationsDir d) m)), e,
      ("reading file " ++ pathJoin env (migrationsDir d) m).
    repeat split. repeat constructor.
  - match goal with
    | Hs : statementsEnd _ _ _ _ _ _ |- _ =>
        apply statementsEnd_failFast in Hs as (t & -> & Ht)
    end.
    rewrite logged_logged. simpl ledger. eexists. split; [reflexivity|].
    apply failFast_after; [repeat constructor | exact Ht].
  - eexists. split; [reflexivity|]. right.
    exists ([(lookup m, None); (ReadFile (pathJoin env (migrationsDir d) m), None)]
            ++ map executed (fst (split s)))%list,
      (record m), e, ("inserting migration record '" ++ m ++ "'").
    split; [now rewrite <- app_assoc|].
    split; [|reflexivity].
    apply Forall_app. split; [repeat constructor | apply clean_executed].
  - eexists. split; [reflexivity|]. left. split; [|discriminate].
    repeat (apply Forall_app; split); try apply clean_executed; repeat constructor.
Qed.

Lemma migrate_failFast (d : DB) :
  db d = MainDB ->
  forall (names : list string) (w : World),
  exists t,
    snd (migrate env d names w) = logged w (ledger (snd (migrate env d names w))) t /\
    failFast (fst (migrate env d names w)) t.
Proof.
  intros Hd. induction names as [|m later IH]; intros w.
  - exists []. simpl. rewrite logged_nil. split; [reflexivity|].
    left. split; [constructor | discriminate].
  - change (migrate env d (m :: later))
      with (applyMigration env d m ;;; migrate env d later).
    rewrite bind_run.
    pose proof (applyMigration_run env d m w Hd) as Ha.
    destruct (applyMigration env d m w) as [r1 w1]. simpl in Ha.
    apply applied_failFast in Ha as (t1 & Hw1 & Ht1).
    destruct r1 as [[]|e| |]; try (exists t1; simpl; auto; fail).
    destruct (IH w1) as (t2 & Hw2 & Ht2).
    exists (t1 ++ t2)%list. split.
    + rewrite Hw2. rewrite Hw1 at 1. now rewrite logged_logged.
    + apply failFast_after; [now apply failFast_Ok | exact Ht2].
Qed.

End FailFast.

(** The runner makes no call after one that failed: either every call came
    back without an error (and the result is no error of a call), or the
    last call is the only one that failed and the result is its error in a
    context. *)
Theorem runMigrations_stops_at_first_failure (env : Env) (d : DB) (w : World) :
  db d = MainDB ->
  exists t,
    trace (snd (runMigrations env d w)) = (trace w ++ t)%list /\
    failFast (fst (runMigrations env d w)) t.
Proof.
  intros Hd. unfold runMigrations. rewrite Hd.
  rewrite bind_run. unfold sqlExec. rewrite wrap_invoke.
  destruct (fault env (ledger w) (trace w) (Exec MainDB createMigrations [])) as [e|].
  { eexists. split; [reflexivity|]. right.
    exists [], (Exec MainDB createMigrations []), e, "creating migrations table".
    repeat split. constructor. }
  simpl effect. rewrite bind_run.
  destruct (migrationsFS d) as [f|].
  2:{ simpl. eexists. split; [reflexivity|]. left.
      split; [repeat constructor | discriminate]. }
  rewrite wrap_ReadDirFS.
  destruct (fsReadDir f (migrationsDir d)) as [e|entries].
  { rewrite logged_logged. eexists. split; [reflexivity|]. right.
    exists [(Exec MainDB createMigrations [], None)], (ReadDir (migrationsDir d)), e,
      "reading migrations directory".
    repeat split. repeat constructor. }
  rewrite logged_logged. simpl ledger. simpl app.
  destruct (migrate_failFast env d Hd (migrationNames entries)
              (logged w (ledger w)
                 [(Exec MainDB createMigrations [], None);
                  (ReadDir (migrationsDir d), None)]))
    as (t & Hw & Ht).
  exists ([(Exec MainDB createMigrations [], None); (ReadDir (migrationsDir d), None)]
          ++ t)%list.
  split.
  - cbv beta. etransitivity; [exact (f_equal trace Hw)|].
    simpl. rewrite <- app_assoc. reflexivity.
  - apply failFast_after; [repeat constructor | exact Ht].
Qed.

Lemma runMigrations_stops_at_first_failure_witness :
  db sampleDB = MainDB /\
  fst (runMigrations strictEnv sampleDB emptyWorld)
    = Fail (Wrap "executing migration statement" (External "syntax error")) /\
  exists t,
    trace (snd (runMigrations strictEnv sampleDB emptyWorld)) = t /\
    failFast (fst (runMigrations strictEnv sampleDB emptyWorld)) t.
Proof.
  split; [reflexivity|]. split; [vm_compute; reflexivity|].
  destruct (runMigrations_stops_at_first_failure strictEnv sampleDB emptyWorld eq_refl)
    as (t & Ht & Hf).
  exists t. split; [exact Ht | exact Hf].
Defined.

(** * Calling [NewDB] again *)

Lemma quiet_app (a b : list event) : quiet a -> quiet b -> quiet (a ++ b).
Proof.
  intros Ha Hb q args e Hin. apply in_app_or in Hin as [Hin|Hin]; eauto.
Qed.

Lemma quiet_adminOnly (t : list event) : adminOnly t -> quiet t.
Proof.
  intros H q args e Hin. unfold adminOnly in H. rewrite Forall_forall in H.
  apply H in Hin. discriminate Hin.
Qed.

Lemma quiet_noExec (t : list event) : noExec t -> quiet t.
Proof.
  intros H q args e Hin. unfold noExec in H. rewrite Forall_forall in H.
  apply H in Hin. discriminate Hin.
Qed.

Lemma quiet_step (enabled : bool) (dsn stmt context : string)
      (r : result unit) (t : list event) :
  step enabled dsn stmt context r t -> quiet t.
Proof. intros H. apply quiet_adminOnly. now apply step_adminOnly in H. Qed.

Section Again.

Variable env : Env.

(** A run of the migrations on a ledger that holds every name. *)
Lemma runMigrations_again (d : DB) (f : FS) (entries : list DirEntry) (w : World)
      (r : result unit) (w' : World) :
  db d = MainDB ->
  migrationsFS d = Some f ->
  fsReadDir f (migrationsDir d) = inr entries ->
  (forall n, In n (migrationNames entries) -> hasName n (ledger w) = true) ->
  runMigrations env d w = (r, w') ->
  ledger w' = ledger w /\ exists t, trace w' = (trace w ++ t)%list /\ quiet t.
Proof.
  intros Hd Hf Hr Hall Hrun.
  destruct (runMigrations_facts env d f entries w Hd Hf Hr)
    as (t & Hw & _ & _ & _ & _ & Hsk).
  rewrite Hrun in *. simpl in *.
  destruct (Hsk Hall) as [E (t' & -> & N)]. split; [exact E|].
  eexists. split; [rewrite Hw; reflexivity|].
  intros q args e [Hin|Hin].
  - injection Hin as <- <- _. now split.
  - now apply (quiet_noExec t' N q args e).
Qed.

End Again.

(** After a [NewDB] that returned a handle, a later [NewDB] with the same
    arguments, on a ledger that still holds what the first one left, without
    drop-existing (dropping the database empties the real table, which the
    model does not follow), executes no statement on the main connection but
    the creation of the ledger table, and leaves the ledger as it is. *)
Theorem NewDB_again (env : Env) (dsn0 : string) (options : list Option)
        (w : World) (d : DB) (w1 w2 : World) :
  NewDB env dsn0 options w = (Ok (Some d, None), w1) ->
  dropExisting d = false ->
  incl (ledger w1) (ledger w2) ->
  ledger (snd (NewDB env dsn0 options w2)) = ledger w2 /\
  exists t, trace (snd (NewDB env dsn0 options w2)) = (trace w2 ++ t)%list /\ quiet t.
Proof.
  intros Hnew _ Hl.
  destruct (ParseDSN env dsn0) as [err|cfg] eqn:Hp.
  { unfold NewDB in Hnew. rewrite Hp in Hnew. discriminate Hnew. }
  pose proof (NewDB_run env dsn0 options cfg w Hp) as H1.
  rewrite Hnew in H1. simpl in H1.
  pose proof (NewDB_run env dsn0 options cfg w2 Hp) as H2.
  destruct (NewDB env dsn0 options w2) as [r w3]. simpl in *.
  set (c := configure cfg dsn0 options) in *.
  (* what the first call tells about the ledger *)
  assert (Hall : migrationsDir c <> EmptyString ->
                 exists f entries,
                   migrationsFS c = Some f /\
                   fsReadDir f (migrationsDir c) = inr entries /\
                   forall n, In n (migrationNames entries) -> hasName n (ledger w2) = true).
  { intros Hdir.
    inversion H1 as [| |t1 t2 r' wx Hs1 Hs2 Hm]; subst.
    inversion Hm as [| |Hd0|wy Hd0 Hrun| |]; subst; [congruence|].
    destruct (runMigrations_Ok env _ _ _ Hrun) as (f & entries & Hf & Hr).
    exists f, entries. split; [exact Hf|]. split; [exact Hr|].
    match type of Hrun with
    | runMigrations _ ?a ?b = _ =>
        destruct (runMigrations_facts env a f entries b eq_refl Hf Hr)
          as (t0 & _ & _ & Hok & _)
    end.
    rewrite Hrun in Hok. simpl in Hok.
    intros n Hn. apply hasName_In, Hl, hasName_In. now apply (proj2 (Hok eq_refl)). }
  clear H1 Hnew.
  inversion H2 as [t1 e Hs1|t1 t2 e Hs1 Hs2|t1 t2 r' wx Hs1 Hs2 Hm]; subst.
  - split; [reflexivity|]. exists t1. split; [reflexivity | now apply quiet_step in Hs1].
  - split; [reflexivity|]. exists (t1 ++ t2)%list. split; [reflexivity|].
    apply quiet_app; [now apply quiet_step in Hs1 | now apply quiet_step in Hs2].
  - assert (Hq : quiet (t1 ++ t2))
      by (apply quiet_app; [now apply quiet_step in Hs1 | now apply quiet_step in Hs2]).
    inversion Hm as [e|e c0|Hd0|wy Hd0 Hrun|e wy c0 Hd0 Hrun|wy Hd0 Hrun]; subst.
    + split; [reflexivity|]. exists ((t1 ++ t2) ++ [(Open MainDB dsn0, Some e)])%list.
      split; [unfold logged; cbn [trace]; symmetry; apply app_assoc|].
      apply quiet_app; [exact Hq|]. intros q args e' [Hin|[]]. discriminate Hin.
    + split; [reflexivity|].
      exists ((t1 ++ t2) ++ [(Open MainDB dsn0, None); (Ping MainDB, Some e);
                             (Close MainDB, c0)])%list.
      split; [unfold logged; cbn [trace]; symmetry; apply app_assoc|].
      apply quiet_app; [exact Hq|].
      intros q args e' [Hin|[Hin|[Hin|[]]]]; discriminate Hin.
    + split; [reflexivity|].
      exists ((t1 ++ t2) ++ [(Open MainDB dsn0, None); (Ping MainDB, None)])%list.
      split; [unfold logged; cbn [trace]; symmetry; apply app_assoc|].
      apply quiet_app; [exact Hq|].
      intros q args e' [Hin|[Hin|[]]]; discriminate Hin.
    + destruct (Hall Hd0) as (f & entries & Hf & Hr & Hn).
      match type of Hrun with
      | runMigrations _ _ ?b = _ =>
          destruct (runMigrations_again env (setHandle c MainDB) f entries b _ _
                      eq_refl Hf Hr Hn Hrun) as (El & t & Et & Hqt)
      end.
      split; [exact El|]. rewrite Et. simpl.
      exists ((t1 ++ t2) ++ [(Open MainDB dsn0, None); (Ping MainDB, None)] ++ t)%list.
      split; [now rewrite <- !app_assoc|].
      apply quiet_app; [exact Hq|]. apply quiet_app; [|exact Hqt].
      intros q args e' [Hin|[Hin|[]]]; discriminate Hin.
    + destruct (Hall Hd0) as (f & entries & Hf & Hr & Hn).
      match type of Hrun with
      | runMigrations _ _ ?b = _ =>
          destruct (runMigrations_again env (setHandle c MainDB) f entries b _ _
                      eq_refl Hf Hr Hn Hrun) as (El & t & Et & Hqt)
      end.
      split; [exact El|]. simpl. rewrite Et. simpl.
      exists ((t1 ++ t2) ++ [(Open MainDB dsn0, None); (Ping MainDB, None)]
              ++ t ++ [(Close MainDB, c0)])%list.
      split; [now rewrite <- !app_assoc|].
      apply quiet_app; [exact Hq|]. apply quiet_app.
      { intros q args e' [Hin|[Hin|[]]]; discriminate Hin. }
      apply quiet_app; [exact Hqt|]. intros q args e' [Hin|[]]. discriminate Hin.
    + destruct (Hall Hd0) as (f & entries & Hf & Hr & Hn).
      match type of Hrun with
      | runMigrations _ _ ?b = _ =>
          destruct (runMigrations_again env (setHandle c MainDB) f entries b _ _
                      eq_refl Hf Hr Hn Hrun) as (El & t & Et & Hqt)
      end.
      split; [exact El|]. rewrite Et. simpl.
      exists ((t1 ++ t2) ++ [(Open MainDB dsn0, None); (Ping MainDB, None)] ++ t)%list.
      split; [now rewrite <- !app_assoc|].
      apply quiet_app; [exact Hq|]. apply quiet_app; [|exact Hqt].
      intros q args e' [Hin|[Hin|[]]]; discriminate Hin.
Qed.

Lemma NewDB_again_witness :
  NewDB sampleEnv "/app" sampleOptions emptyWorld
    = (Ok (Some sampleDB, None), snd (NewDB sampleEnv "/app" sampleOptions emptyWorld)) /\
  dropExisting sampleDB = false /\
  ledger (snd (NewDB sampleEnv "/app" sampleOptions
                 (snd (NewDB sampleEnv "/app" sampleOptions emptyWorld))))
    = ledger (snd (NewDB sampleEnv "/app" sampleOptions emptyWorld)).
Proof.
  assert (N : NewDB sampleEnv "/app" sampleOptions emptyWorld
              = (Ok (Some sampleDB, None),
                 snd (NewDB sampleEnv "/app" sampleOptions emptyWorld)))
    by (vm_compute; reflexivity).
  split; [exact N|]. split; [reflexivity|].
  exact (proj1 (NewDB_again sampleEnv "/app" sampleOptions emptyWorld sampleDB _ _
                  N eq_refl (incl_refl _))).
Defined.

(** * When nothing fails *)

Section Sound.

Variable env : Env.
Hypothesis sound : forall l t c, fault env l t c = None.






End Sound.




